(** * RAG pipeline of AI_Local_Chat_PDF: PDF indexing and context retrieval

    A shallow embedding of [rag_system.py] (classes [DocumentProcessor],
    [VectorStore] and [RAGSystem]) and the properties of its chunker, of its
    error handling and of its store operations.

    Conventions of the embedding:
    - a Python [str] is the list of its Unicode code points;
    - a Python [int] is a [Z], a Python [float] a primitive binary64 float;
    - a Python [dict] is an association list in insertion order;
    - a method that may raise returns a [result] and threads the mutable
      state (the Chroma collection, the lazily loaded model, a log of the
      calls made to external libraries) explicitly. *)

From Stdlib Require Import String Ascii ZArith NArith List Bool Lia.
From Stdlib Require Import Floats.
From Stdlib Require Decimal DecimalString DecimalPos DecimalZ Finite.
Import ListNotations.

Local Open Scope Z_scope.

(* ------------------------------------------------------------------ *)
(** ** Python strings *)

Module PyStr.

(** A code point. *)
Definition char := N.

(** [str]: an immutable sequence of code points. *)
Definition str := list char.

(** A literal of the source, read code point by code point. *)
Definition lit (s : string) : str :=
  List.map N_of_ascii (list_ascii_of_string s).

(** [len(s)]. *)
Definition len {A} (l : list A) : Z := Z.of_nat (length l).

(** [str.isspace] on one code point: the code points CPython takes for
    whitespace in [str.split()] and [str.strip()]. *)
Definition isspace (c : char) : bool :=
  ((9 <=? c) && (c <=? 13) || (28 <=? c) && (c <=? 32)
   || (c =? 133) || (c =? 160) || (c =? 5760)
   || (8192 <=? c) && (c <=? 8202)
   || (c =? 8232) || (c =? 8233) || (c =? 8239) || (c =? 8287)
   || (c =? 12288))%N.

(** [s.lstrip()], [s.rstrip()], [s.strip()]. *)
Fixpoint lstrip (s : str) : str :=
  match s with
  | c :: s' => if isspace c then lstrip s' else s
  | [] => []
  end.

Definition rstrip (s : str) : str := rev (lstrip (rev s)).

Definition strip (s : str) : str := rstrip (lstrip s).

(** [s.split()]: the maximal runs of non-whitespace, in order.  [word] is
    the run being read. *)
Fixpoint split_from (word : str) (s : str) : list str :=
  match s with
  | [] => match word with [] => [] | _ => [word] end
  | c :: s' =>
      if isspace c
      then match word with
           | [] => split_from [] s'
           | _ => word :: split_from [] s'
           end
      else split_from (word ++ [c]) s'
  end.

Definition split (s : str) : list str := split_from [] s.

(** [sep.join(parts)]. *)
Fixpoint join (sep : str) (parts : list str) : str :=
  match parts with
  | [] => []
  | [p] => p
  | p :: rest => p ++ sep ++ join sep rest
  end.

(** Truth value of a string or a list: non-empty. *)
Definition truthy {A} (l : list A) : bool :=
  match l with [] => false | _ => true end.

(** [l[i:]] for an integer [i] (negative [i] counts from the end; [-0] is
    [0], so [l[-0:]] is the whole of [l]). *)
Definition slice_from {A} (i : Z) (l : list A) : list A :=
  let n := len l in
  let start := if i <? 0 then Z.max 0 (n + i) else Z.min i n in
  skipn (Z.to_nat start) l.

(** [str(i)] for an integer. *)
Definition str_of_int (i : Z) : str :=
  lit (DecimalString.NilZero.string_of_int (Z.to_int i)).

Definition eqb (a b : str) : bool :=
  if list_eq_dec N.eq_dec a b then true else false.

End PyStr.

Import PyStr.

(* ------------------------------------------------------------------ *)
(** ** DocumentProcessor: the chunker *)

Record DocumentProcessor := {
  chunk_size : Z;
  chunk_overlap : Z;
  ocr_dpi : Z
}.

(** State of the loop of [split_text_into_chunks]. *)
Record chunker := {
  current_chunk : list str;
  chunks : list str
}.

(** [max(20, int(self.chunk_size * 0.2))].  The product is a binary64
    float and [int] truncates toward zero; for every size below 2^52 in
    magnitude that is the integer quotient by 5. *)
Definition min_chunk_len (dp : DocumentProcessor) : Z :=
  Z.max 20 (Z.quot (chunk_size dp) 5).

(** One iteration of [for word in words]. *)
Definition loop_body (dp : DocumentProcessor) (st : chunker) (word : str)
  : chunker :=
  let cur := current_chunk st ++ [word] in
  if len cur >=? chunk_size dp then
    let chunk := strip (join (lit " ") cur) in
    let out :=
      if len chunk >=? min_chunk_len dp then chunks st ++ [chunk]
      else chunks st in
    {| current_chunk := slice_from (- chunk_overlap dp) cur; chunks := out |}
  else {| current_chunk := cur; chunks := chunks st |}.

(** The code after the loop: the last chunk, if meaningful. *)
Definition flush (st : chunker) : list str :=
  if truthy (current_chunk st) then
    let last := strip (join (lit " ") (current_chunk st)) in
    if len last >=? 20 then chunks st ++ [last] else chunks st
  else chunks st.

Definition chunker_init : chunker := {| current_chunk := []; chunks := [] |}.

Definition split_text_into_chunks (dp : DocumentProcessor) (text : str)
  : list str :=
  if negb (truthy text) || negb (truthy (strip text)) then []
  else
    let words := split text in
    if negb (truthy words) then []
    else flush (fold_left (loop_body dp) words chunker_init).

(** *** The loop as a machine

    The [for] loop, one word per step: the configuration is the words still
    to be read and the loop state. *)
Definition config : Type := list str * chunker.



(** *** Start positions (ghost state)

    The source keeps no word index.  [traced_body] runs [loop_body] and
    records, next to it, the index in the word sequence of the first word of
    the buffer and the start of every chunk the loop appends. *)
Record traced := {
  tr_state : chunker;
  tr_start : nat;
  tr_starts : list nat
}.

Definition traced_body (dp : DocumentProcessor) (t : traced) (word : str)
  : traced :=
  let cur := current_chunk (tr_state t) ++ [word] in
  let st' := loop_body dp (tr_state t) word in
  if len cur >=? chunk_size dp then
    {| tr_state := st';
       tr_start := (tr_start t + (length cur - length (current_chunk st')))%nat;
       tr_starts :=
         if len (strip (join (lit " ") cur)) >=? min_chunk_len dp
         then tr_starts t ++ [tr_start t] else tr_starts t |}
  else {| tr_state := st'; tr_start := tr_start t; tr_starts := tr_starts t |}.

Definition traced_init : traced :=
  {| tr_state := chunker_init; tr_start := O; tr_starts := [] |}.

Definition traced_loop (dp : DocumentProcessor) (words : list str) : traced :=
  fold_left (traced_body dp) words traced_init.

(** The chunks appended inside the loop (the interior chunks), each with the
    index of its first word. *)
Definition interior_chunks (dp : DocumentProcessor) (text : str)
  : list (nat * str) :=
  let t := traced_loop dp (split text) in
  combine (tr_starts t) (chunks (tr_state t)).


(** The [k]-th window of [size] words when windows slide by [step] words. *)
Definition window (size step : nat) (words : list str) (k : nat) : list str :=
  firstn size (skipn (k * step) words).

(** *** The chunker in the words of the specification *)
Module Spec.

(** The trailing [n] elements of a buffer. *)
Definition trailing {A} (n : nat) (l : list A) : list A :=
  skipn (length l - n) l.

(** The text of a buffer of words. *)
Definition chunk_text (buffer : list str) : str := join (lit " ") buffer.

(** "character length at least max(20, 0.2 * chunk_size)", the product
    taken exactly: both sides multiplied by 5. *)
Definition long_enough (size : Z) (chunk : str) : bool :=
  5 * len chunk >=? Z.max 100 size.

(** Accumulate words into a buffer; a buffer that has reached [size]
    words is emitted when long enough and reset to its own trailing
    [overlap] words; at the end of the input the buffer is flushed when it
    has at least 20 characters. *)
Fixpoint accumulate (size overlap : Z) (buffer words : list str)
  : list str :=
  match words with
  | [] =>
      if len (chunk_text buffer) >=? 20 then [chunk_text buffer] else []
  | w :: rest =>
      let buffer' := buffer ++ [w] in
      if len buffer' >=? size then
        (if long_enough size (chunk_text buffer')
         then [chunk_text buffer'] else [])
        ++ accumulate size overlap (trailing (Z.to_nat overlap) buffer') rest
      else accumulate size overlap buffer' rest
  end.

Definition chunk (size overlap : Z) (text : str) : list str :=
  accumulate size overlap [] (split text).

(** A chunk followed by the non-overlapping portion of each successor. *)
Definition reconstruct (overlap : Z) (cs : list str) : list str :=
  match cs with
  | [] => []
  | c :: rest =>
      split c ++ flat_map (fun c' => skipn (Z.to_nat overlap) (split c')) rest
  end.

End Spec.

(* ------------------------------------------------------------------ *)
(** ** Python values used by the store *)

(** An insertion-ordered [dict] with string keys. *)
Definition dict (V : Type) : Type := list (str * V).

Fixpoint dict_get {V} (k : str) (d : dict V) : option V :=
  match d with
  | [] => None
  | (k', v) :: d' => if eqb k k' then Some v else dict_get k d'
  end.

(** [d[k] = v]: a present key keeps its place, a new key goes last. *)
Fixpoint dict_set {V} (k : str) (v : V) (d : dict V) : dict V :=
  match d with
  | [] => [(k, v)]
  | (k', v') :: d' =>
      if eqb k k' then (k', v) :: d' else (k', v') :: dict_set k v d'
  end.

(** Chunk metadata as the store holds it. *)
Definition meta : Type := dict str.

(** The keys and values a caller may put in a metadata mapping. *)
Inductive pyval :=
| PStr (s : str)
| PInt (i : Z)
| PBool (b : bool)
| PNone.

(** [str(v)]. *)
Definition py_str (v : pyval) : str :=
  match v with
  | PStr s => s
  | PInt i => str_of_int i
  | PBool true => lit "True"
  | PBool false => lit "False"
  | PNone => lit "None"
  end.

(** The items of a caller's mapping, in iteration order. *)
Definition raw_meta : Type := list (pyval * pyval).

(** [{str(k): str(v) for k, v in base_raw.items()}]. *)
Definition coerce_meta (base_raw : raw_meta) : meta :=
  fold_left (fun d kv => dict_set (py_str (fst kv)) (py_str (snd kv)) d)
            base_raw [].

(** An embedding vector. *)
Definition vector : Type := list float.

(** What [model.encode] returns: a 2-D array (it has [shape] and [tolist])
    or a plain list of vectors. *)
Inductive embeddings :=
| NdArray (rows : list vector)
| PyList (items : list vector).

(** [format(x, '.4f')]: the exact binary value rounded half-to-even to four
    decimals. *)
Definition round_half_even (num : Z) (e : Z) : Z :=
  if 0 <=? e then num * 2 ^ e
  else
    let d := 2 ^ (- e) in
    let q := num / d in
    let r := num mod d in
    if 2 * r <? d then q
    else if d <? 2 * r then q + 1
    else if Z.even q then q else q + 1.

Definition pad4 (n : Z) : str :=
  let ds := str_of_int n in
  repeat 48%N (4 - length ds) ++ ds.

Definition format_4f (x : float) : str :=
  match Prim2SF x with
  | S754_nan => lit "nan"
  | S754_infinity s => if s then lit "-inf" else lit "inf"
  | S754_zero s => (if s then lit "-" else []) ++ lit "0.0000"
  | S754_finite s m e =>
      let n := round_half_even (Z.pos m * 10000) e in
      (if s then lit "-" else [])
        ++ str_of_int (n / 10000) ++ lit "." ++ pad4 (n mod 10000)
  end.

(* ------------------------------------------------------------------ *)
(** ** Exceptions, state and the environment *)

Inductive exn :=
| FileNotFoundError (msg : str)
| ValueError (msg : str)
| AttributeError (msg : str)
| LibraryError (msg : str).

Inductive result (A : Type) :=
| Ok (a : A)
| Raise (e : exn).
Arguments Ok {A} a.
Arguments Raise {A} e.

(** A rasterized page. *)
Definition image : Type := N.

(** One record of the Chroma collection. *)
Record row := {
  row_id : str;
  row_embedding : vector;
  row_document : str;
  row_metadata : option meta
}.

(** The arguments of one [collection.add]. *)
Record batch := {
  b_embeddings : list vector;
  b_documents : list str;
  b_metadatas : list meta;
  b_ids : list str
}.

(** Calls made to the libraries around the pipeline, in order. *)
Inductive event :=
| ImportPdf2image
| ImportPytesseract
| ConvertFromPath (pdf_path : str) (dpi : Z) (poppler_path : option str)
| ImageToString (img : image)
| LoadModel (name : str)
| Encode (texts : list str)
| CollectionAdd (b : batch)
| CollectionGet (where_ : option (str * str))
| CollectionDelete (ids : list str)
| CollectionCount
| CollectionQuery (query_embeddings : list vector) (n_results : Z).

(** The mutable part of a [VectorStore]: the rows of [self.collection],
    whether [self._model] is loaded, and the calls made so far. *)
Record state := {
  collection : list row;
  model_loaded : bool;
  trace : list event
}.

(** The answer of [collection.query]. *)
Record query_result := {
  q_documents : option (list (list str));
  q_distances : option (list (list float));
  q_metadatas : option (list (list (option meta)))
}.

(** The answer of [collection.get]. *)
Record get_result := {
  g_ids : list str;
  g_metadatas : option (list (option meta))
}.

(** Everything the pipeline reads from outside: the file system, the PDF
    and OCR libraries, the embedding model and the behaviour of the store
    that the code does not determine. *)
Record world := {
  (** [os.path.exists] *)
  path_exists : str -> bool;
  (** [pdfplumber]: [page.extract_text()] of every page, or the exception
      raised while opening or reading the file *)
  pdf_pages : str -> result (list (option str));
  (** whether [pdf2image] and [pytesseract] can be imported *)
  pdf2image_installed : bool;
  pytesseract_installed : bool;
  (** [os.getenv("POPPLER_PATH", None)] *)
  poppler_env : option str;
  convert_from_path : str -> Z -> option str -> result (list image);
  image_to_string : image -> result (option str);
  (** [SentenceTransformer(name)]: the exception it raises, if any *)
  load_model : str -> option exn;
  (** [model.encode(texts)] *)
  encode : list str -> result embeddings;
  (** the exception with which the store call just logged fails, if any *)
  store_fault : list event -> option exn;
  (** the nearest neighbours the store computes *)
  query_answer : list row -> list vector -> Z -> query_result
}.

(** [RAGConfig], the fields the pipeline reads. *)
Record RAGConfig := {
  embedding_model : str;
  cfg_chunk_size : Z;
  cfg_chunk_overlap : Z;
  search_results : Z;
  cfg_ocr_dpi : Z
}.

(** [self.processor] of a [VectorStore]. *)
Definition processor (config : RAGConfig) : DocumentProcessor :=
  {| chunk_size := cfg_chunk_size config;
     chunk_overlap := cfg_chunk_overlap config;
     ocr_dpi := cfg_ocr_dpi config |}.

(** *** The monad of methods: state and exceptions *)
Definition M (A : Type) : Type := state -> result A * state.

Definition ret {A} (a : A) : M A := fun s => (Ok a, s).

Definition raise {A} (e : exn) : M A := fun s => (Raise e, s).

Definition bind {A B} (m : M A) (f : A -> M B) : M B :=
  fun s =>
    match m s with
    | (Ok a, s') => f a s'
    | (Raise e, s') => (Raise e, s')
    end.

(** [try: m  except Exception as e: handler(e)]. *)
Definition try_except {A} (m : M A) (handler : exn -> M A) : M A :=
  fun s =>
    match m s with
    | (Ok a, s') => (Ok a, s')
    | (Raise e, s') => handler e s'
    end.

Definition lift {A} (r : result A) : M A := fun s => (r, s).

Definition emit (ev : event) : M unit :=
  fun s =>
    (Ok tt, {| collection := collection s;
               model_loaded := model_loaded s;
               trace := trace s ++ [ev] |}).

Definition get_rows : M (list row) := fun s => (Ok (collection s), s).

Definition set_rows (rows : list row) : M unit :=
  fun s =>
    (Ok tt, {| collection := rows;
               model_loaded := model_loaded s;
               trace := trace s |}).

Declare Scope monad_scope.
Delimit Scope monad_scope with monad.
Notation "x <- m ;; k" := (bind m (fun x => k))
  (at level 61, m at next level, right associativity) : monad_scope.
Notation "m ;;; k" := (bind m (fun _ => k))
  (at level 61, right associativity) : monad_scope.
Local Open Scope monad_scope.

(** [for x in xs: acc = body(acc, x)]. *)
Fixpoint for_each {A B} (body : B -> A -> M B) (xs : list A) (acc : B) : M B :=
  match xs with
  | [] => ret acc
  | x :: xs' => acc' <- body acc x ;; for_each body xs' acc'
  end.

(* ------------------------------------------------------------------ *)
(** ** The Chroma collection

    ChromaDB is an external library.  The collection is the list of its
    rows; a call is logged, fails when the environment says so (leaving the
    rows as they are), and otherwise acts on the rows as Chroma documents
    it: [add] appends the rows of the batch and ignores an id that is
    already present, [get] selects rows by a metadata equality filter,
    [delete] removes rows by id, [count] counts rows.  What [query] answers
    is left to the environment. *)
Module Chroma.

Definition call (w : world) (ev : event) : M unit :=
  emit ev ;;;
  (fun s =>
     match store_fault w (trace s) with
     | Some e => (Raise e, s)
     | None => (Ok tt, s)
     end).

Definition has_id (id : str) (rows : list row) : bool :=
  existsb (fun r => eqb id (row_id r)) rows.

Fixpoint insert_rows (new rows : list row) : list row :=
  match new with
  | [] => rows
  | r :: new' =>
      insert_rows new' (if has_id (row_id r) rows then rows else rows ++ [r])
  end.

Fixpoint rows_of (embs : list vector) (docs : list str) (metas : list meta)
         (ids : list str) : list row :=
  match embs, docs, metas, ids with
  | e :: embs', d :: docs', m :: metas', i :: ids' =>
      {| row_id := i; row_embedding := e; row_document := d;
         row_metadata := Some m |} :: rows_of embs' docs' metas' ids'
  | _, _, _, _ => []
  end.

Definition rows_of_batch (b : batch) : list row :=
  rows_of (b_embeddings b) (b_documents b) (b_metadatas b) (b_ids b).

(** [collection.add(embeddings=, documents=, metadatas=, ids=)] *)
Definition add (w : world) (b : batch) : M unit :=
  call w (CollectionAdd b) ;;;
  rows <- get_rows ;;
  set_rows (insert_rows (rows_of_batch b) rows).

Definition matches (where_ : option (str * str)) (r : row) : bool :=
  match where_ with
  | None => true
  | Some (k, v) =>
      match row_metadata r with
      | Some m =>
          match dict_get k m with
          | Some v' => eqb v v'
          | None => false
          end
      | None => false
      end
  end.

(** [collection.get()] and [collection.get(where={k: v})] *)
Definition get (w : world) (where_ : option (str * str)) : M get_result :=
  call w (CollectionGet where_) ;;;
  rows <- get_rows ;;
  let found := filter (matches where_) rows in
  ret {| g_ids := map row_id found;
         g_metadatas := Some (map row_metadata found) |}.

(** [collection.delete(ids=)] *)
Definition delete (w : world) (ids : list str) : M unit :=
  call w (CollectionDelete ids) ;;;
  rows <- get_rows ;;
  set_rows (filter (fun r => negb (existsb (eqb (row_id r)) ids)) rows).

(** [collection.count()] *)
Definition count (w : world) : M Z :=
  call w CollectionCount ;;;
  rows <- get_rows ;;
  ret (len rows).

(** [collection.query(query_embeddings=, n_results=)] *)
Definition query (w : world) (q : list vector) (n_results : Z)
  : M query_result :=
  call w (CollectionQuery q n_results) ;;;
  rows <- get_rows ;;
  ret (query_answer w rows q n_results).

End Chroma.

(* ------------------------------------------------------------------ *)
(** ** DocumentProcessor.extract_text_from_pdf *)

(** [x or ""] for an optional string. *)
Definition or_empty (x : option str) : str :=
  match x with Some t => t | None => [] end.

(** [text += page.extract_text() or ""] over the pages, from [text = ""]. *)
Definition page_text (pages : list (option str)) : str :=
  fold_left (fun text page => text ++ or_empty page) pages [].

(** The primary path: the text layer read by [pdfplumber].  [Some text] is
    the [return text] inside the [with] block, [None] falling out of it. *)
Definition primary_extract (w : world) (pdf_path : str) : M (option str) :=
  try_except
    (pages <- lift (pdf_pages w pdf_path) ;;
     let text := page_text pages in
     if truthy text && truthy (strip text) then ret (Some text) else ret None)
    (fun e => raise e).

(** The OCR fallback, from [ocr_text = ""] on. *)
Definition ocr_fallback (w : world) (self : DocumentProcessor) (pdf_path : str)
  : M str :=
  try_except
    (emit ImportPdf2image ;;;
     if negb (pdf2image_installed w) then ret []
     else
       emit ImportPytesseract ;;;
       if negb (pytesseract_installed w) then ret []
       else
         let poppler_path := poppler_env w in
         let arg := if truthy (or_empty poppler_path) then poppler_path
                    else None in
         emit (ConvertFromPath pdf_path (ocr_dpi self) arg) ;;;
         images <- lift (convert_from_path w pdf_path (ocr_dpi self) arg) ;;
         ocr_text <- for_each
                       (fun ocr_text img =>
                          emit (ImageToString img) ;;;
                          t <- lift (image_to_string w img) ;;
                          ret (ocr_text ++ or_empty t))
                       images [] ;;
         if truthy ocr_text && truthy (strip ocr_text) then ret ocr_text
         else ret [])
    (fun e => raise e).

Definition extract_text_from_pdf (w : world) (self : DocumentProcessor)
           (pdf_path : str) : M str :=
  r <- primary_extract w pdf_path ;;
  match r with
  | Some text => ret text
  | None => ocr_fallback w self pdf_path
  end.

(** The OCR fallback has been attempted: its first import was reached. *)
Definition ocr_attempted (before after : state) : Prop :=
  exists evs, trace after = trace before ++ ImportPdf2image :: evs.

(* ------------------------------------------------------------------ *)
(** ** VectorStore *)

Module VectorStore.

Definition _ensure_model (w : world) (config : RAGConfig) : M unit :=
  fun s =>
    if model_loaded s then (Ok tt, s)
    else
      let s' := {| collection := collection s;
                   model_loaded := false;
                   trace := trace s ++ [LoadModel (embedding_model config)] |} in
      match load_model w (embedding_model config) with
      | Some e => (Raise e, s')
      | None => (Ok tt, {| collection := collection s';
                           model_loaded := true;
                           trace := trace s' |})
      end.

(** [model.encode(texts)] on the loaded model. *)
Definition model_encode (w : world) (texts : list str) : M embeddings :=
  emit (Encode texts) ;;; lift (encode w texts).

(** [embeddings.shape[0] == 0] when [embeddings] has a shape, and
    [len(embeddings) == 0] when it is a list. *)
Definition no_vectors (e : embeddings) : bool :=
  match e with
  | NdArray rows => len rows =? 0
  | PyList items => len items =? 0
  end.

(** [embeddings.tolist() if hasattr(embeddings, "tolist") else embeddings] *)
Definition emb_list_of (e : embeddings) : list vector :=
  match e with
  | NdArray rows => rows
  | PyList items => items
  end.

(** [metadata or {"source": pdf_path, "document_id": document_id}] *)
Definition base_raw_of (document_id pdf_path : str) (metadata : option raw_meta)
  : raw_meta :=
  match metadata with
  | Some (kv :: rest) => kv :: rest
  | _ => [(PStr (lit "source"), PStr pdf_path);
          (PStr (lit "document_id"), PStr document_id)]
  end.

(** [[f"{document_id}_{i}" for i in range(len(chunks))]] *)
Definition chunk_ids (document_id : str) (n : nat) : list str :=
  map (fun i => document_id ++ lit "_" ++ str_of_int (Z.of_nat i)) (seq 0 n).

Definition add_document (w : world) (config : RAGConfig)
           (document_id pdf_path : str) (metadata : option raw_meta) : M unit :=
  try_except
    (text <- extract_text_from_pdf w (processor config) pdf_path ;;
     if negb (truthy text) || negb (truthy (strip text))
     then raise (ValueError (lit "No extractable text found in PDF"))
     else
       let chunks := split_text_into_chunks (processor config) text in
       if negb (truthy chunks)
       then raise (ValueError (lit "No textual content to index from PDF"))
       else
         _ensure_model w config ;;;
         embeddings <- model_encode w chunks ;;
         if no_vectors embeddings
         then raise (ValueError
                       (lit "Embedding model returned no vectors for chunks"))
         else
           let base_raw := base_raw_of document_id pdf_path metadata in
           let base_meta := coerce_meta base_raw in
           let metas := fold_left (fun metas _ => metas ++ [base_meta])
                                  chunks [] in
           let emb_list := emb_list_of embeddings in
           if negb (truthy emb_list) || negb (len emb_list =? len chunks)
           then raise (ValueError (lit "Embeddings/chunks length mismatch"))
           else
             Chroma.add w {| b_embeddings := emb_list;
                             b_documents := chunks;
                             b_metadatas := metas;
                             b_ids := chunk_ids document_id (length chunks) |})
    (fun e => raise e).

(** One hit: the chunk, its distance and its metadata. *)
Definition hit : Type := str * float * meta.

(** [zip(documents[0], distances[0], metadatas[0], strict=False)], each
    triple appended as [(doc, distance, dict(metadata or {}))]. *)
Fixpoint zip_hits (docs : list str) (dists : list float)
         (metas : list (option meta)) : list hit :=
  match docs, dists, metas with
  | d :: docs', x :: dists', m :: metas' =>
      (d, x, match m with Some m' => m' | None => [] end)
        :: zip_hits docs' dists' metas'
  | _, _, _ => []
  end.

(** [n_results or self.config.search_results] *)
Definition n_results_or (config : RAGConfig) (n_results : option Z) : Z :=
  match n_results with
  | Some n => if n =? 0 then search_results config else n
  | None => search_results config
  end.

(** [query_embedding.tolist()]: a plain list has no [tolist]. *)
Definition tolist (e : embeddings) : M (list vector) :=
  match e with
  | NdArray rows => ret rows
  | PyList _ =>
      raise (AttributeError (lit "'list' object has no attribute 'tolist'"))
  end.

(** The normalisation of the store's answer: what the function returns
    once [collection.query] has answered. *)
Definition hits_of (results : query_result) : list hit :=
  match q_documents results with
  | None | Some [] => []
  | Some (documents0 :: _) =>
      match q_distances results with
      | None | Some [] => []
      | Some (distances0 :: _) =>
          match q_metadatas results with
          | None | Some [] => []
          | Some (metadatas0 :: _) =>
              zip_hits documents0 distances0 metadatas0
          end
      end
  end.

(** The body of the [try] of [search_similar_documents]. *)
Definition search_body (w : world) (config : RAGConfig) (query : str)
           (n_results : option Z) : M (list hit) :=
  let n_results := n_results_or config n_results in
  _ensure_model w config ;;;
  query_embedding <- model_encode w [query] ;;
  q <- tolist query_embedding ;;
  results <- Chroma.query w q n_results ;;
  ret (hits_of results).

Definition search_similar_documents (w : world) (config : RAGConfig)
           (query : str) (n_results : option Z) : M (list hit) :=
  try_except (search_body w config query n_results) (fun _ => ret []).

Definition delete_document (w : world) (document_id : str) : M unit :=
  try_except
    (results <- Chroma.get w (Some (lit "document_id", document_id)) ;;
     if truthy (g_ids results) then Chroma.delete w (g_ids results)
     else ret tt)
    (fun e => raise e).

Definition get_document_count (w : world) : M Z :=
  try_except (Chroma.count w) (fun _ => ret 0).

End VectorStore.

(* ------------------------------------------------------------------ *)
(** ** RAGSystem *)

Module RAGSystem.

Definition add_pdf_document (w : world) (config : RAGConfig)
           (document_id pdf_path : str) (metadata : option raw_meta) : M unit :=
  if negb (path_exists w pdf_path)
  then raise (FileNotFoundError (lit "PDF file not found: " ++ pdf_path))
  else VectorStore.add_document w config document_id pdf_path metadata.

(** [metadata.get('source', 'Unknown')] *)
Definition source_of (metadata : meta) : str :=
  match dict_get (lit "source") metadata with
  | Some v => v
  | None => lit "Unknown"
  end.

(** The four lines appended to [context_parts] for one hit. *)
Definition append_hit (context_parts : list str) (h : VectorStore.hit)
  : list str :=
  let '(doc, distance, metadata) := h in
  (((context_parts ++ [lit "Document: " ++ source_of metadata])
      ++ [lit "Relevance: " ++ format_4f distance])
     ++ [lit "Content: " ++ doc])
    ++ [repeat 45%N 50].

(** The newline. *)
Definition nl : str := [10%N].

Definition retrieve_relevant_context (w : world) (config : RAGConfig)
           (query : str) (n_results : option Z) : M str :=
  similar_docs <- VectorStore.search_similar_documents w config query n_results ;;
  if negb (truthy similar_docs) then ret []
  else ret (join nl (fold_left append_hit similar_docs [])).

(** The context in the words of the specification: one block per hit, a
    block being its four lines, blocks and lines joined by newlines. *)
Definition block (h : VectorStore.hit) : str :=
  let '(doc, distance, metadata) := h in
  join nl [lit "Document: " ++ source_of metadata;
           lit "Relevance: " ++ format_4f distance;
           lit "Content: " ++ doc;
           lit "--------------------------------------------------"].

Definition context_of (hits : list VectorStore.hit) : str :=
  join nl (map block hits).

Definition delete_document (w : world) (document_id : str) : M unit :=
  VectorStore.delete_document w document_id.

(** One record of the listing. *)
Record summary := {
  s_document_id : str;
  s_source : str;
  s_chunks : Z
}.

(** One iteration of the grouping loop; a row without metadata has no
    [get]. *)
Definition group_step (documents : dict summary) (metadata : option meta)
  : M (dict summary) :=
  match metadata with
  | None =>
      raise (AttributeError (lit "'NoneType' object has no attribute 'get'"))
  | Some metadata =>
      let doc_id := match dict_get (lit "document_id") metadata with
                    | Some v => v
                    | None => lit "unknown"
                    end in
      let documents :=
        match dict_get doc_id documents with
        | Some _ => documents
        | None =>
            dict_set doc_id
              {| s_document_id := doc_id;
                 s_source := match dict_get (lit "source") metadata with
                             | Some v => v
                             | None => lit "unknown"
                             end;
                 s_chunks := 0 |} documents
        end in
      match dict_get doc_id documents with
      | Some d =>
          ret (dict_set doc_id
                 {| s_document_id := s_document_id d;
                    s_source := s_source d;
                    s_chunks := s_chunks d + 1 |} documents)
      | None => raise (LibraryError (lit "KeyError"))
      end
  end.

(** The body of the [try] of [list_documents]. *)
Definition list_body (w : world) : M (list summary) :=
  results <- Chroma.get w None ;;
  match g_metadatas results with
  | None => ret []
  | Some metadatas =>
      documents <- for_each group_step metadatas [] ;;
      ret (map snd documents)
  end.

Definition list_documents (w : world) : M (list summary) :=
  try_except (list_body w) (fun _ => ret []).

End RAGSystem.

(* ------------------------------------------------------------------ *)
(** ** Notions used in the statements *)

(** A word of [split]: not empty and free of whitespace. *)
Definition nonspace (c : char) : bool := negb (isspace c).

Definition word_ok (w : str) : Prop :=
  w <> [] /\ forallb nonspace w = true.

(** A string that neither starts nor ends with whitespace. *)
Inductive trimmed : str -> Prop :=
| trimmed_nil : trimmed []
| trimmed_ends s :
    (exists c s', s = c :: s' /\ isspace c = false) ->
    (exists c s', s = s' ++ [c] /\ isspace c = false) ->
    trimmed s.

(** The windows of [ws] numbered below [k], each with its start, that pass
    the length floor of the code. *)
Definition passing (dp : DocumentProcessor) (size step : nat)
           (ws : list str) (k : nat) : list (nat * str) :=
  filter (fun p => len (snd p) >=? min_chunk_len dp)
         (map (fun j => ((j * step)%nat,
                         strip (join (lit " ") (window size step ws j))))
              (seq 0 k)).

(** The invariant of the loop when [0 < overlap < size]: after [k] full
    windows the buffer is what is left of the consumed words from the start
    of window [k]. *)
Record window_inv (dp : DocumentProcessor) (consumed : list str) (t : traced)
       (k : nat) : Prop := {
  wi_current :
    current_chunk (tr_state t)
    = skipn (k * (Z.to_nat (chunk_size dp) - Z.to_nat (chunk_overlap dp)))
            consumed;
  wi_low :
    (k * (Z.to_nat (chunk_size dp) - Z.to_nat (chunk_overlap dp))
     <= length consumed)%nat;
  wi_high :
    (length consumed
     < k * (Z.to_nat (chunk_size dp) - Z.to_nat (chunk_overlap dp))
       + Z.to_nat (chunk_size dp))%nat;
  wi_full :
    forall j, (j < k)%nat ->
      (j * (Z.to_nat (chunk_size dp) - Z.to_nat (chunk_overlap dp))
       + Z.to_nat (chunk_size dp) <= length consumed)%nat;
  wi_start :
    tr_start t
    = (k * (Z.to_nat (chunk_size dp) - Z.to_nat (chunk_overlap dp)))%nat;
  wi_starts :
    tr_starts t
    = map fst (passing dp (Z.to_nat (chunk_size dp))
                 (Z.to_nat (chunk_size dp) - Z.to_nat (chunk_overlap dp))
                 consumed k);
  wi_chunks :
    chunks (tr_state t)
    = map snd (passing dp (Z.to_nat (chunk_size dp))
                 (Z.to_nat (chunk_size dp) - Z.to_nat (chunk_overlap dp))
                 consumed k)
}.

(** The full windows numbered below [k] that are long enough in the sense of
    the specification, each with the index of its first word. *)
Definition windows_passing (size overlap : Z) (words : list str) (k : nat)
  : list (nat * str) :=
  filter (fun p => Spec.long_enough size (snd p))
         (map (fun j =>
                 ((j * (Z.to_nat size - Z.to_nat overlap))%nat,
                  Spec.chunk_text
                    (window (Z.to_nat size) (Z.to_nat size - Z.to_nat overlap)
                            words j)))
              (seq 0 k)).

(** The words between the starts of two consecutive windows. *)
Definition stride (dp : DocumentProcessor) : nat :=
  Z.to_nat (chunk_size dp) - Z.to_nat (chunk_overlap dp).

(** How many full windows fit in [n] words. *)
Definition num_windows (dp : DocumentProcessor) (n : nat) : nat :=
  if (n <? Z.to_nat (chunk_size dp))%nat then O
  else S ((n - Z.to_nat (chunk_size dp)) / stride dp).

Definition dp52 : DocumentProcessor :=
  {| chunk_size := 5; chunk_overlap := 2; ocr_dpi := 200 |}.

Definition dp50 : DocumentProcessor :=
  {| chunk_size := 5; chunk_overlap := 0; ocr_dpi := 200 |}.


(** Twelve distinct words: the scenario of the specification. *)
Definition text12 : str :=
  lit "alpha0 bravo1 charlie2 delta3 echo4 foxtrot5 golf6 hotel7 india8 juliet9 kilo10 lima11".


(** Seven words. *)
Definition text7 : str :=
  lit "alpha0 bravo1 charlie2 delta3 echo4 foxtrot5 golf6".

(** The batches handed to [collection.add] among logged calls. *)
Definition adds (evs : list event) : list batch :=
  flat_map (fun ev => match ev with CollectionAdd b => [b] | _ => [] end) evs.

(** The calls logged between two states. *)
Definition new_events (s s' : state) : list event :=
  skipn (length (trace s)) (trace s').

(** A call that is no call to the store. *)
Definition off_store (ev : event) : Prop :=
  match ev with
  | CollectionAdd _ | CollectionGet _ | CollectionDelete _
  | CollectionCount | CollectionQuery _ _ => False
  | _ => True
  end.

(** A call that writes nothing to the store. *)
Definition no_write (ev : event) : Prop :=
  match ev with
  | CollectionAdd _ | CollectionDelete _ => False
  | _ => True
  end.

(** From [s] to [s'] the rows are kept and only calls satisfying [P] are
    logged. *)
Definition frame (P : event -> Prop) (s s' : state) : Prop :=
  collection s' = collection s
  /\ exists evs, trace s' = trace s ++ evs /\ Forall P evs.

Definition keeps {A} (P : event -> Prop) (m : M A) : Prop :=
  forall s, frame P s (snd (m s)).




(** The document under which [list_documents] counts a chunk. *)
Definition doc_key (metadata : meta) : str :=
  match dict_get (lit "document_id") metadata with
  | Some v => v
  | None => lit "unknown"
  end.



(** *** A concrete environment *)

Definition demo_text : str :=
  lit "The quick brown fox jumps over the lazy dog near the river bank".

Definition demo_path : str := lit "doc.pdf".

(** One readable PDF of one page, no OCR installed, a model that returns one
    vector per text, a store that never fails and answers a query with its
    first rows. *)
Definition demo_world : world :=
  {| path_exists := fun p => eqb p demo_path;
     pdf_pages := fun p =>
       if eqb p demo_path then Ok [Some demo_text]
       else Raise (LibraryError (lit "No such file"));
     pdf2image_installed := false;
     pytesseract_installed := false;
     poppler_env := None;
     convert_from_path := fun _ _ _ => Ok [];
     image_to_string := fun _ => Ok None;
     load_model := fun _ => None;
     encode := fun texts => Ok (NdArray (map (fun _ => [0.5%float]) texts));
     store_fault := fun _ => None;
     query_answer := fun rows _ n =>
       if n <=? 0
       then {| q_documents := None; q_distances := None; q_metadatas := None |}
       else
         {| q_documents := Some [firstn (Z.to_nat n) (map row_document rows)];
            q_distances :=
              Some [firstn (Z.to_nat n) (map (fun _ => 0.25%float) rows)];
            q_metadatas := Some [firstn (Z.to_nat n) (map row_metadata rows)] |}
  |}.


Definition demo_config : RAGConfig :=
  {| embedding_model := lit "all-MiniLM-L6-v2";
     cfg_chunk_size := 1000;
     cfg_chunk_overlap := 200;
     search_results := 3;
     cfg_ocr_dpi := 200 |}.

Definition empty_state : state :=
  {| collection := []; model_loaded := false; trace := [] |}.

(** The batch [add_document] hands to the store. *)
Definition batch_of (document_id pdf_path : str) (metadata : option raw_meta)
           (chunks : list str) (emb_list : list vector) : batch :=
  {| b_embeddings := emb_list;
     b_documents := chunks;
     b_metadatas :=
       repeat (coerce_meta (VectorStore.base_raw_of document_id pdf_path metadata))
              (length chunks);
     b_ids := VectorStore.chunk_ids document_id (length chunks) |}.

(** How a call of [add_document] can end: rejected before any call to the
    store, or after exactly one [collection.add], of a batch with one
    embedding, one metadata mapping and one id per chunk. *)
Inductive add_outcome (w : world) (config : RAGConfig)
          (document_id pdf_path : str) (metadata : option raw_meta)
          (s : state) : result unit -> state -> Prop :=
| add_rejected e s' :
    frame off_store s s' ->
    add_outcome w config document_id pdf_path metadata s (Raise e) s'
| add_written s3 text embeddings r s' :
    frame off_store s s3 ->
    fst (extract_text_from_pdf w (processor config) pdf_path s) = Ok text ->
    let chunks := split_text_into_chunks (processor config) text in
    let b := batch_of document_id pdf_path metadata chunks
                      (VectorStore.emb_list_of embeddings) in
    chunks <> [] ->
    encode w chunks = Ok embeddings ->
    length (VectorStore.emb_list_of embeddings) = length chunks ->
    trace s' = trace s3 ++ [CollectionAdd b] ->
    (r = Ok tt
     /\ collection s'
        = Chroma.insert_rows (Chroma.rows_of_batch b) (collection s)
     \/ (exists e, r = Raise e /\ store_fault w (trace s') = Some e)
        /\ collection s' = collection s) ->
    add_outcome w config document_id pdf_path metadata s r s'.

(** The call raised [e], the rows are as they were and no [collection.add]
    was made. *)
Definition rejected_unstored {A} (s : state) (out : result A * state) (e : exn)
  : Prop :=
  fst out = Raise e
  /\ collection (snd out) = collection s
  /\ adds (new_events s (snd out)) = [].

(** What one iteration of the grouping loop makes of [documents]. *)
Definition group (documents : dict RAGSystem.summary) (metadata : meta)
  : dict RAGSystem.summary :=
  let doc_id := doc_key metadata in
  match dict_get doc_id documents with
  | Some d =>
      dict_set doc_id
        {| RAGSystem.s_document_id := RAGSystem.s_document_id d;
           RAGSystem.s_source := RAGSystem.s_source d;
           RAGSystem.s_chunks := RAGSystem.s_chunks d + 1 |} documents
  | None =>
      dict_set doc_id
        {| RAGSystem.s_document_id := doc_id;
           RAGSystem.s_source :=
             match dict_get (lit "source") metadata with
             | Some v => v
             | None => lit "unknown"
             end;
           RAGSystem.s_chunks := 0 + 1 |} documents
  end.

(** The number of mappings counted under [document_id]. *)
Definition count_key (document_id : str) (metas : list meta) : Z :=
  len (filter (fun m => eqb (doc_key m) document_id) metas).

(** The chunk count recorded under a key, if any. *)
Definition chunks_of (k : str) (documents : dict RAGSystem.summary) : option Z :=
  match dict_get k documents with
  | Some d => Some (RAGSystem.s_chunks d)
  | None => None
  end.

(** The distance of a hit. *)
Definition hit_distance (h : VectorStore.hit) : float := snd (fst h).

(** The four lines of one hit. *)
Definition hit_lines (h : VectorStore.hit) : list str :=
  let '(doc, distance, metadata) := h in
  [lit "Document: " ++ RAGSystem.source_of metadata;
   lit "Relevance: " ++ format_4f distance;
   lit "Content: " ++ doc;
   repeat 45%N 50].

(** A store that holds one chunk of [demo_text]. *)
Definition one_row_state : state :=
  {| collection :=
       [{| row_id := lit "A_0";
           row_embedding := [0.5%float];
           row_document := demo_text;
           row_metadata := Some [(lit "source", demo_path);
                                 (lit "document_id", lit "A")] |}];
     model_loaded := true;
     trace := [] |}.



(** [demo_world] with another PDF library, model or store. *)
Definition with_pages (w : world) (pages : result (list (option str))) : world :=
  {| path_exists := path_exists w;
     pdf_pages := fun _ => pages;
     pdf2image_installed := pdf2image_installed w;
     pytesseract_installed := pytesseract_installed w;
     poppler_env := poppler_env w;
     convert_from_path := convert_from_path w;
     image_to_string := image_to_string w;
     load_model := load_model w;
     encode := encode w;
     store_fault := store_fault w;
     query_answer := query_answer w |}.

Definition with_encode (w : world) (enc : list str -> result embeddings) : world :=
  {| path_exists := path_exists w;
     pdf_pages := pdf_pages w;
     pdf2image_installed := pdf2image_installed w;
     pytesseract_installed := pytesseract_installed w;
     poppler_env := poppler_env w;
     convert_from_path := convert_from_path w;
     image_to_string := image_to_string w;
     load_model := load_model w;
     encode := enc;
     store_fault := store_fault w;
     query_answer := query_answer w |}.

Definition with_fault (w : world) (fault : list event -> option exn) : world :=
  {| path_exists := path_exists w;
     pdf_pages := pdf_pages w;
     pdf2image_installed := pdf2image_installed w;
     pytesseract_installed := pytesseract_installed w;
     poppler_env := poppler_env w;
     convert_from_path := convert_from_path w;
     image_to_string := image_to_string w;
     load_model := load_model w;
     encode := encode w;
     store_fault := fault;
     query_answer := query_answer w |}.

(** A scanned PDF: two pages without a text layer. *)
Definition scanned_world : world :=
  with_pages demo_world (Ok [Some (lit "   "); None]).

(** A model that returns two vectors whatever it is given. *)
Definition mismatch_world : world :=
  with_encode demo_world (fun _ => Ok (NdArray [[0.5%float]; [0.25%float]])).

(** A model that returns no vector. *)
Definition mute_world : world :=
  with_encode demo_world (fun _ => Ok (NdArray [])).

(** A store every call of which fails. *)
Definition faulty_world : world :=
  with_fault demo_world (fun _ => Some (LibraryError (lit "disk I/O error"))).

(** Every recorded chunk is the text of the words from its recorded start,
    and the buffer is what is left of the consumed words from [tr_start]. *)
Record start_inv (consumed : list str) (t : traced) : Prop := {
  si_current : current_chunk (tr_state t) = skipn (tr_start t) consumed;
  si_start : (tr_start t <= length consumed)%nat;
  si_length : length (tr_starts t) = length (chunks (tr_state t));
  si_chunks :
    forall i c, In (i, c) (combine (tr_starts t) (chunks (tr_state t))) ->
      exists n, (i + n <= length consumed)%nat
                /\ c = strip (join (lit " ") (firstn n (skipn i consumed)))
}.

(** Every record is filed under its own [document_id], which is the key of
    one of the mappings. *)
Definition well_keyed (keys : list str) (documents : dict RAGSystem.summary)
  : Prop :=
  NoDup (map fst documents)
  /\ forall k d, dict_get k documents = Some d ->
                 RAGSystem.s_document_id d = k /\ In k keys.

(** A scanned PDF of two pages with both OCR libraries installed and a
    poppler path in the environment: the first page is recognized, the second
    is empty. *)
Definition ocr_world : world :=
  {| path_exists := path_exists demo_world;
     pdf_pages := fun _ => Ok [Some (lit "   "); None];
     pdf2image_installed := true;
     pytesseract_installed := true;
     poppler_env := Some (lit "/opt/poppler/bin");
     convert_from_path := fun _ _ _ => Ok [1%N; 2%N];
     image_to_string := fun img =>
       if (img =? 1)%N then Ok (Some (lit "Scanned words of the first page "))
       else Ok None;
     load_model := load_model demo_world;
     encode := encode demo_world;
     store_fault := store_fault demo_world;
     query_answer := query_answer demo_world |}.

(** The same, with a recognition that fails on the second page. *)
Definition broken_ocr_world : world :=
  {| path_exists := path_exists demo_world;
     pdf_pages := fun _ => Ok [Some (lit "   "); None];
     pdf2image_installed := true;
     pytesseract_installed := true;
     poppler_env := Some [];
     convert_from_path := fun _ _ _ => Ok [1%N; 2%N; 3%N];
     image_to_string := fun img =>
       if (img =? 1)%N then Ok (Some (lit "Scanned words of the first page "))
       else Raise (LibraryError (lit "tesseract is not installed"));
     load_model := load_model demo_world;
     encode := encode demo_world;
     store_fault := store_fault demo_world;
     query_answer := query_answer demo_world |}.

(** The total of the chunk counts of a listing. *)
Definition sum_chunks (l : list RAGSystem.summary) : Z :=
  fold_right (fun d total => RAGSystem.s_chunks d + total) 0 l.

(** The filter [{"document_id": document_id}] of [delete_document]. *)
Definition of_document (document_id : str) (r : row) : bool :=
  Chroma.matches (Some (lit "document_id", document_id)) r.

(** A store with a chunk of document ["A"], a chunk of document ["B"] and a
    chunk without [document_id]. *)
Definition three_row_state : state :=
  {| collection :=
       [{| row_id := lit "A_0";
           row_embedding := [0.5%float];
           row_document := demo_text;
           row_metadata := Some [(lit "source", demo_path);
                                 (lit "document_id", lit "A")] |};
        {| row_id := lit "B_0";
           row_embedding := [0.25%float];
           row_document := lit "Another document with its own words";
           row_metadata := Some [(lit "source", lit "b.pdf");
                                 (lit "document_id", lit "B")] |};
        {| row_id := lit "C_0";
           row_embedding := [0.75%float];
           row_document := lit "A chunk stored with caller metadata";
           row_metadata := Some [(lit "source", lit "report")] |}];
     model_loaded := true;
     trace := [] |}.

(** The argument [poppler_path] of [convert_from_path]: the environment
    variable, when it is set and not empty. *)
Definition poppler_arg (w : world) : option str :=
  if truthy (or_empty (poppler_env w)) then poppler_env w else None.

(** A call other than the loading of the model. *)
Definition not_load (ev : event) : Prop :=
  match ev with LoadModel _ => False | _ => True end.

(** Run from a state where the model is loaded, [m] leaves it loaded and
    does not load it again. *)
Definition stays_loaded {A} (m : M A) : Prop :=
  forall s, model_loaded s = true ->
    model_loaded (snd (m s)) = true
    /\ exists evs, trace (snd (m s)) = trace s ++ evs /\ Forall not_load evs.

(* ------------------------------------------------------------------ *)
(** * Properties *)

(** ** Words and whitespace *)

Lemma forallb_snoc {A} (f : A -> bool) l x :
  forallb f (l ++ [x]) = forallb f l && f x.
Proof.
  rewrite forallb_app. simpl. now rewrite andb_true_r.
Qed.

Lemma split_from_words s : forall word,
  forallb nonspace word = true -> Forall word_ok (split_from word s).
Proof.
  induction s as [|c s IH]; intros word Hw; simpl.
  - destruct word; constructor; [|constructor].
    split; [discriminate|exact Hw].
  - destruct (isspace c) eqn:Hc.
    + destruct word as [|a word'].
      * now apply IH.
      * constructor; [split; [discriminate|exact Hw]|now apply IH].
    + apply IH. rewrite forallb_snoc, Hw. unfold nonspace. now rewrite Hc.
Qed.

Lemma split_words s : Forall word_ok (split s).
Proof. now apply split_from_words. Qed.

Lemma split_from_word w : forall pre s,
  forallb nonspace w = true ->
  split_from pre (w ++ s) = split_from (pre ++ w) s.
Proof.
  induction w as [|c w IH]; intros pre s Hw; simpl.
  - now rewrite app_nil_r.
  - simpl in Hw. apply andb_true_iff in Hw as [Hc Hw].
    unfold nonspace in Hc. apply negb_true_iff in Hc. rewrite Hc.
    rewrite IH by assumption. now rewrite <- app_assoc.
Qed.

Lemma isspace_space : isspace 32%N = true.
Proof. reflexivity. Qed.

Lemma lit_space : lit " " = [32%N].
Proof. reflexivity. Qed.

Lemma join_cons sep w w2 ws :
  join sep (w :: w2 :: ws) = w ++ sep ++ join sep (w2 :: ws).
Proof. reflexivity. Qed.

Lemma split_from_space pre s :
  split_from pre (lit " " ++ s)
  = match pre with [] => split_from [] s | _ => pre :: split_from [] s end.
Proof. reflexivity. Qed.

Lemma split_join ws :
  Forall word_ok ws -> split (join (lit " ") ws) = ws.
Proof.
  unfold split. induction 1 as [|w ws [Hne Hw] Hws IH]; [reflexivity|].
  destruct ws as [|w2 ws'].
  - simpl. rewrite <- (app_nil_r w) at 1. rewrite split_from_word by assumption.
    simpl. destruct w; [contradiction|reflexivity].
  - rewrite join_cons, split_from_word by assumption.
    rewrite split_from_space, IH. simpl app.
    destruct w; [contradiction|reflexivity].
Qed.

Lemma lstrip_head c s : isspace c = false -> lstrip (c :: s) = c :: s.
Proof. intros H. simpl. now rewrite H. Qed.

Lemma strip_trimmed s : trimmed s -> strip s = s.
Proof.
  intros [|s' (c & t & -> & Hc) (c' & t' & E & Hc')]; [reflexivity|].
  unfold strip, rstrip. rewrite lstrip_head by assumption.
  rewrite E, rev_app_distr. simpl. rewrite Hc'. simpl.
  now rewrite rev_involutive.
Qed.

Lemma word_trimmed w : word_ok w -> trimmed w.
Proof.
  intros [Hne Hw]. apply trimmed_ends.
  - destruct w as [|c w]; [contradiction|]. exists c, w. split; [reflexivity|].
    simpl in Hw. apply andb_true_iff in Hw as [Hc _].
    now apply negb_true_iff in Hc.
  - destruct (exists_last Hne) as (t & c & ->). exists c, t.
    split; [reflexivity|]. rewrite forallb_snoc in Hw.
    apply andb_true_iff in Hw as [_ Hc]. now apply negb_true_iff in Hc.
Qed.

Lemma join_trimmed ws : Forall word_ok ws -> trimmed (join (lit " ") ws).
Proof.
  induction 1 as [|w ws Hw Hws IH]; [constructor|].
  destruct ws as [|w2 ws'].
  - simpl. now apply word_trimmed.
  - rewrite join_cons.
    pose proof (word_trimmed _ Hw) as Tw.
    inversion Tw as [E|s' (c & t & Ec & Hc) _ E].
    { destruct Hw as [Hne _]. now subst w. }
    inversion IH as [E'|s'' _ (c' & t' & Ec' & Hc') E'].
    { inversion Hws as [|? ? [Hne _] _]; subst.
      simpl in E'. destruct w2; [contradiction|].
      destruct ws'; simpl in E'; discriminate. }
    apply trimmed_ends.
    + exists c, (t ++ lit " " ++ join (lit " ") (w2 :: ws')).
      split; [|assumption]. now rewrite Ec.
    + exists c', (w ++ lit " " ++ t'). split; [|assumption].
      rewrite Ec'. now rewrite <- !app_assoc.
Qed.

Lemma strip_join ws :
  Forall word_ok ws -> strip (join (lit " ") ws) = join (lit " ") ws.
Proof. intros H. apply strip_trimmed. now apply join_trimmed. Qed.

(** A buffer of [n] words has at least [2n - 1] characters. *)
Lemma join_length ws :
  Forall word_ok ws -> 2 * len ws - 1 <= len (join (lit " ") ws).
Proof.
  unfold len. induction 1 as [|w ws [Hne _] Hws IH]; [simpl; lia|].
  destruct ws as [|w2 ws'].
  - simpl. destruct w; [contradiction|]. simpl. lia.
  - rewrite join_cons.
    rewrite !length_app. change (length (lit " ")) with 1%nat.
    destruct w; [contradiction|]. simpl length in *. lia.
Qed.

Lemma lstrip_spaces s : forallb isspace s = true -> lstrip s = [].
Proof.
  induction s as [|c s IH]; [reflexivity|]. simpl.
  intros H. apply andb_true_iff in H as [Hc Hs]. rewrite Hc. now apply IH.
Qed.

Lemma lstrip_nil_spaces s : lstrip s = [] -> forallb isspace s = true.
Proof.
  induction s as [|c s IH]; [reflexivity|]. simpl.
  destruct (isspace c); [exact IH|discriminate].
Qed.

Lemma lstrip_head_nonspace s c t : lstrip s = c :: t -> isspace c = false.
Proof.
  induction s as [|a s IH]; simpl; [discriminate|].
  destruct (isspace a) eqn:Ha; [exact IH|]. intros E. now inversion E; subst.
Qed.

Lemma lstrip_snoc_nonspace s c : isspace c = false -> lstrip (s ++ [c]) <> [].
Proof.
  intros Hc E. apply lstrip_nil_spaces in E. rewrite forallb_snoc in E.
  apply andb_true_iff in E as [_ E]. congruence.
Qed.

(** [strip] returns the empty string exactly on whitespace-only input. *)
Lemma strip_nil_spaces s : strip s = [] <-> forallb isspace s = true.
Proof.
  split.
  - unfold strip, rstrip. intros E. destruct (lstrip s) as [|c t] eqn:El.
    + now apply lstrip_nil_spaces.
    + exfalso. apply lstrip_head_nonspace in El.
      apply (f_equal (@rev _)) in E. rewrite rev_involutive in E.
      simpl in E. now apply lstrip_snoc_nonspace in E.
  - intros H. unfold strip. now rewrite lstrip_spaces.
Qed.

Lemma split_spaces s : forallb isspace s = true -> split s = [].
Proof.
  unfold split. induction s as [|c s IH]; [reflexivity|]. simpl.
  intros H. apply andb_true_iff in H as [Hc Hs]. rewrite Hc. now apply IH.
Qed.

(** ** Slices and thresholds *)

Lemma slice_from_trailing {A} (ov : Z) (l : list A) :
  0 < ov -> slice_from (- ov) l = Spec.trailing (Z.to_nat ov) l.
Proof.
  intros H. unfold slice_from, Spec.trailing, len.
  destruct (Z.ltb_spec (- ov) 0); [|lia]. f_equal. lia.
Qed.

Lemma slice_from_zero {A} (l : list A) : slice_from (- 0) l = l.
Proof.
  unfold slice_from, len. simpl. now rewrite Z.min_l by lia.
Qed.

(** Once the buffer holds [chunk_size] words the two ways of writing the
    interior threshold agree with "at least 20 characters". *)
Lemma threshold_code dp ws :
  Forall word_ok ws -> chunk_size dp <= len ws ->
  (len (join (lit " ") ws) >=? min_chunk_len dp)
  = (len (join (lit " ") ws) >=? 20).
Proof.
  intros Hws Hsize. pose proof (join_length _ Hws) as Hlen.
  unfold min_chunk_len.
  assert (Hq : Z.quot (chunk_size dp) 5 <= Z.max 0 (chunk_size dp)).
  { destruct (Z.le_gt_cases 0 (chunk_size dp)) as [Hpos|Hneg].
    - rewrite Z.quot_div_nonneg by lia.
      pose proof (Z.div_le_upper_bound (chunk_size dp) 5 (chunk_size dp)). lia.
    - pose proof (Z.quot_opp_l (chunk_size dp) 5 ltac:(lia)) as E.
      assert (0 <= Z.quot (- chunk_size dp) 5) by (apply Z.quot_pos; lia). lia. }
  assert (0 <= len ws) by (unfold len; lia).
  destruct (Z.geb_spec (len (join (lit " ") ws)) 20);
    destruct (Z.geb_spec (len (join (lit " ") ws))
                (Z.max 20 (Z.quot (chunk_size dp) 5))); try reflexivity; lia.
Qed.

Lemma threshold_spec size ws :
  Forall word_ok ws -> size <= len ws ->
  Spec.long_enough size (join (lit " ") ws)
  = (len (join (lit " ") ws) >=? 20).
Proof.
  intros Hws Hsize. pose proof (join_length _ Hws) as Hlen.
  unfold Spec.long_enough. assert (0 <= len ws) by (unfold len; lia).
  destruct (Z.geb_spec (len (join (lit " ") ws)) 20);
    destruct (Z.geb_spec (5 * len (join (lit " ") ws)) (Z.max 100 size));
    try reflexivity; lia.
Qed.

(** ** The loop against the specification's algorithm *)

Lemma Forall_skipn_words {A} (P : A -> Prop) n (l : list A) :
  Forall P l -> Forall P (skipn n l).
Proof.
  intros H. rewrite <- (firstn_skipn n l) in H.
  now apply Forall_app in H.
Qed.

Lemma flush_spec st size overlap :
  Forall word_ok (current_chunk st) ->
  flush st = chunks st ++ Spec.accumulate size overlap (current_chunk st) [].
Proof.
  intros Hcur. unfold flush. simpl. unfold Spec.chunk_text.
  destruct (current_chunk st) as [|w ws] eqn:E.
  - simpl. now rewrite app_nil_r.
  - cbn [truthy]. rewrite strip_join by assumption.
    destruct (len (join (lit " ") (w :: ws)) >=? 20);
      [reflexivity|now rewrite app_nil_r].
Qed.


(** The early returns of [split_text_into_chunks] change nothing: the result
    is always the flushed state of the loop over [text.split()]. *)
Lemma split_text_into_chunks_loop dp text :
  split_text_into_chunks dp text
  = flush (fold_left (loop_body dp) (split text) chunker_init).
Proof.
  unfold split_text_into_chunks.
  destruct text as [|c text']; [reflexivity|]. cbn [truthy negb orb].
  destruct (strip (c :: text')) as [|a t] eqn:E.
  - apply strip_nil_spaces in E. now rewrite split_spaces.
  - cbn [truthy negb]. now destruct (split (c :: text')).
Qed.


(** ** The loop as a machine *)


(** ** Windows *)

Lemma window_app size step ws rest j :
  (j * step + size <= length ws)%nat ->
  window size step (ws ++ rest) j = window size step ws j.
Proof.
  intros H. unfold window. rewrite skipn_app, firstn_app, length_skipn.
  replace (size - (length ws - j * step))%nat with O by lia.
  now rewrite firstn_O, app_nil_r.
Qed.

Lemma combine_fst_snd {A B} (l : list (A * B)) :
  combine (map fst l) (map snd l) = l.
Proof.
  induction l as [|[a b] l IH]; [reflexivity|]. simpl. now rewrite IH.
Qed.

Lemma passing_app dp size step ws rest k :
  (forall j, (j < k)%nat -> (j * step + size <= length ws)%nat) ->
  passing dp size step (ws ++ rest) k = passing dp size step ws k.
Proof.
  intros H. unfold passing. f_equal. apply map_ext_in.
  intros j Hj. apply in_seq in Hj. rewrite window_app; [reflexivity|].
  apply H. lia.
Qed.

Lemma passing_S dp size step ws k :
  passing dp size step ws (S k)
  = passing dp size step ws k
    ++ (if len (strip (join (lit " ") (window size step ws k)))
           >=? min_chunk_len dp
        then [((k * step)%nat, strip (join (lit " ") (window size step ws k)))]
        else []).
Proof.
  unfold passing. rewrite seq_S, map_app, filter_app. reflexivity.
Qed.

Lemma window_inv_init dp :
  0 < chunk_size dp -> window_inv dp [] traced_init 0.
Proof.
  intros Hsize. constructor; simpl; try reflexivity; lia.
Qed.

Lemma window_inv_step dp consumed t k w :
  0 < chunk_overlap dp < chunk_size dp ->
  window_inv dp consumed t k ->
  exists k', window_inv dp (consumed ++ [w]) (traced_body dp t w) k'.
Proof.
  intros Hpar [Hcur Hlow Hhigh Hfull Hstart Hstarts Hchunks].
  set (size := Z.to_nat (chunk_size dp)) in *.
  set (ov := Z.to_nat (chunk_overlap dp)) in *.
  set (step := (size - ov)%nat) in *.
  assert (Hsz : (0 < ov < size)%nat) by (subst size ov; lia).
  assert (Ecur : current_chunk (tr_state t) ++ [w]
                 = skipn (k * step) (consumed ++ [w])).
  { rewrite skipn_app, Hcur.
    replace (k * step - length consumed)%nat with O by lia. reflexivity. }
  assert (Elen : length (current_chunk (tr_state t) ++ [w])
                 = (length consumed + 1 - k * step)%nat).
  { rewrite Ecur, length_skipn, length_app. simpl. lia. }
  unfold traced_body, loop_body.
  destruct (Z.geb_spec (len (current_chunk (tr_state t) ++ [w]))
              (chunk_size dp)) as [Hge|Hlt].
  - (* the buffer has reached [size] words: it is window [k] *)
    assert (Efull : length (current_chunk (tr_state t) ++ [w]) = size).
    { unfold len in Hge. subst size. lia. }
    assert (Ewin : window size step (consumed ++ [w]) k
                   = current_chunk (tr_state t) ++ [w]).
    { unfold window. rewrite <- Ecur. apply firstn_all2. lia. }
    exists (S k). cbn [tr_state tr_start tr_starts current_chunk chunks].
    rewrite slice_from_trailing by lia. fold ov.
    unfold Spec.trailing. rewrite Efull. fold step.
    constructor; fold size ov step;
      cbn [tr_state tr_start tr_starts current_chunk chunks].
    + rewrite Ecur, skipn_skipn. f_equal.
    + rewrite length_app. simpl. lia.
    + rewrite length_app. simpl. lia.
    + intros j Hj. rewrite length_app. simpl.
      assert (j * step <= k * step)%nat by (apply Nat.mul_le_mono_r; lia).
      lia.
    + rewrite length_skipn, Efull, Hstart. lia.
    + rewrite passing_S, Ewin, map_app, passing_app by assumption.
      rewrite Hstarts, Hstart.
      destruct (len (strip (join (lit " ") (current_chunk (tr_state t) ++ [w])))
                  >=? min_chunk_len dp); simpl; [reflexivity|].
      now rewrite app_nil_r.
    + rewrite passing_S, Ewin, map_app, passing_app by assumption.
      rewrite Hchunks.
      destruct (len (strip (join (lit " ") (current_chunk (tr_state t) ++ [w])))
                  >=? min_chunk_len dp); simpl; [reflexivity|].
      now rewrite app_nil_r.
  - (* the buffer is still short *)
    assert (Eshort : (length (current_chunk (tr_state t) ++ [w]) < size)%nat).
    { unfold len in Hlt. subst size. lia. }
    exists k. constructor; fold size ov step;
      cbn [tr_state tr_start tr_starts current_chunk chunks].
    + exact Ecur.
    + rewrite length_app. simpl. lia.
    + rewrite length_app. simpl. rewrite length_app in Elen, Eshort.
      simpl in Elen, Eshort. lia.
    + intros j Hj. rewrite length_app. simpl. specialize (Hfull j Hj). lia.
    + exact Hstart.
    + now rewrite passing_app.
    + now rewrite passing_app.
Qed.

Lemma window_inv_loop dp rest : forall consumed t k,
  0 < chunk_overlap dp < chunk_size dp ->
  window_inv dp consumed t k ->
  exists k',
    window_inv dp (consumed ++ rest) (fold_left (traced_body dp) rest t) k'.
Proof.
  induction rest as [|w rest IH]; intros consumed t k Hpar Hinv.
  - exists k. now rewrite app_nil_r.
  - destruct (window_inv_step dp consumed t k w Hpar Hinv) as [k1 H1].
    destruct (IH _ _ _ Hpar H1) as [k2 H2].
    exists k2. simpl. now rewrite <- app_assoc in H2.
Qed.

(** The ghost state is only an observer of [loop_body]. *)
Lemma traced_erase dp words : forall t,
  tr_state (fold_left (traced_body dp) words t)
  = fold_left (loop_body dp) words (tr_state t).
Proof.
  induction words as [|w rest IH]; intros t; [reflexivity|].
  simpl. rewrite IH. f_equal. unfold traced_body.
  now destruct (len (current_chunk (tr_state t) ++ [w]) >=? chunk_size dp).
Qed.

(** ** The recorded starts are the positions of the chunks *)

Lemma slice_from_skipn {A} (i : Z) (l : list A) :
  exists j, (j <= length l)%nat /\ slice_from i l = skipn j l.
Proof.
  unfold slice_from, len. eexists. split; [|reflexivity].
  destruct (Z.ltb_spec i 0); lia.
Qed.

Lemma firstn_skipn_app {A} n i (l rest : list A) :
  (i + n <= length l)%nat ->
  firstn n (skipn i (l ++ rest)) = firstn n (skipn i l).
Proof.
  intros H. rewrite skipn_app, firstn_app, length_skipn.
  replace (n - (length l - i))%nat with O by lia.
  now rewrite firstn_O, app_nil_r.
Qed.

Lemma combine_snoc {A B} (l1 : list A) (l2 : list B) a b :
  length l1 = length l2 ->
  combine (l1 ++ [a]) (l2 ++ [b]) = combine l1 l2 ++ [(a, b)].
Proof.
  revert l2. induction l1 as [|x l1 IH]; intros [|y l2] H; try discriminate;
    [reflexivity|].
  simpl. f_equal. apply IH. now inversion H.
Qed.

Lemma map_snd_combine {A B} (l1 : list A) (l2 : list B) :
  length l1 = length l2 -> map snd (combine l1 l2) = l2.
Proof.
  revert l2. induction l1 as [|x l1 IH]; intros [|y l2] H; try discriminate;
    [reflexivity|].
  simpl. f_equal. apply IH. now inversion H.
Qed.

Lemma start_inv_step dp consumed t w :
  start_inv consumed t -> start_inv (consumed ++ [w]) (traced_body dp t w).
Proof.
  intros [Hcur Hstart Hlen Hchunks].
  assert (Ecur : current_chunk (tr_state t) ++ [w]
                 = skipn (tr_start t) (consumed ++ [w])).
  { rewrite skipn_app, Hcur.
    replace (tr_start t - length consumed)%nat with O by lia. reflexivity. }
  assert (Hold : forall i c,
             In (i, c) (combine (tr_starts t) (chunks (tr_state t))) ->
             exists n, (i + n <= length (consumed ++ [w]))%nat
                       /\ c = strip (join (lit " ")
                                          (firstn n (skipn i (consumed ++ [w]))))).
  { intros i c Hin. destruct (Hchunks i c Hin) as (n & Hn & ->).
    exists n. rewrite length_app, firstn_skipn_app by assumption.
    split; [lia|reflexivity]. }
  unfold traced_body, loop_body.
  destruct (len (current_chunk (tr_state t) ++ [w]) >=? chunk_size dp).
  - destruct (slice_from_skipn (- chunk_overlap dp)
                (current_chunk (tr_state t) ++ [w])) as (j & Hj & Ej).
    assert (Hcurlen : length (current_chunk (tr_state t) ++ [w])
                      = (length (consumed ++ [w]) - tr_start t)%nat)
      by (now rewrite Ecur, length_skipn).
    constructor; cbn [tr_state tr_start tr_starts current_chunk chunks].
    + rewrite Ej, length_skipn.
      replace (tr_start t
               + (length (current_chunk (tr_state t) ++ [w])
                  - (length (current_chunk (tr_state t) ++ [w]) - j)))%nat
        with (j + tr_start t)%nat by lia.
      now rewrite <- skipn_skipn, <- Ecur.
    + rewrite Ej, length_skipn. rewrite length_app in *. simpl in *. lia.
    + destruct (len (strip (join (lit " ") (current_chunk (tr_state t) ++ [w])))
                  >=? min_chunk_len dp); [|exact Hlen].
      rewrite !length_app. simpl. lia.
    + destruct (len (strip (join (lit " ") (current_chunk (tr_state t) ++ [w])))
                  >=? min_chunk_len dp); [|exact Hold].
      intros i c Hin. rewrite combine_snoc in Hin by exact Hlen.
      apply in_app_or in Hin. destruct Hin as [Hin|[E|[]]]; [now apply Hold|].
      inversion E; subst i c.
      exists (length (current_chunk (tr_state t) ++ [w])). split.
      * rewrite Hcurlen, length_app. simpl. lia.
      * rewrite <- Ecur. now rewrite firstn_all.
  - constructor; cbn [tr_state tr_start tr_starts current_chunk chunks];
      try assumption.
    rewrite length_app. simpl. lia.
Qed.

Lemma start_inv_loop dp rest : forall consumed t,
  start_inv consumed t ->
  start_inv (consumed ++ rest) (fold_left (traced_body dp) rest t).
Proof.
  induction rest as [|w rest IH]; intros consumed t H.
  - now rewrite app_nil_r.
  - simpl. replace (consumed ++ w :: rest) with ((consumed ++ [w]) ++ rest)
      by now rewrite <- app_assoc.
    apply IH. now apply start_inv_step.
Qed.

(** For every pair of parameters, an interior chunk recorded with start [i]
    is the text of a run of words of [text.split()] that begins at word
    [i], and the recorded chunks are the chunks the loop has appended. *)
Lemma interior_chunks_sound dp text :
  map snd (interior_chunks dp text)
  = chunks (fold_left (loop_body dp) (split text) chunker_init)
  /\ forall i c, In (i, c) (interior_chunks dp text) ->
       exists n, (i + n <= length (split text))%nat
                 /\ c = strip (join (lit " ") (firstn n (skipn i (split text)))).
Proof.
  assert (H0 : start_inv [] traced_init).
  { constructor; try reflexivity; try (simpl; lia); intros i c []. }
  pose proof (start_inv_loop dp (split text) [] traced_init H0) as H.
  cbn [app] in H. fold (traced_loop dp (split text)) in H.
  destruct H as [_ _ Hlen Hchunks]. split.
  - unfold interior_chunks. change chunker_init with (tr_state traced_init).
    rewrite <- (traced_erase dp (split text) traced_init).
    fold (traced_loop dp (split text)).
    now apply map_snd_combine.
  - exact Hchunks.
Qed.

Lemma window_words size step ws j :
  Forall word_ok ws -> Forall word_ok (window size step ws j).
Proof.
  intros H. unfold window.
  pose proof (Forall_skipn_words word_ok (j * step) ws H) as Hs.
  rewrite <- (firstn_skipn size (skipn (j * step) ws)) in Hs.
  now apply Forall_app in Hs.
Qed.

Lemma window_length size step ws j :
  (j * step + size <= length ws)%nat ->
  length (window size step ws j) = size.
Proof.
  intros H. unfold window. rewrite length_firstn, length_skipn. lia.
Qed.

Lemma passing_windows dp ws k :
  0 < chunk_size dp ->
  Forall word_ok ws ->
  (forall j, (j < k)%nat ->
     (j * (Z.to_nat (chunk_size dp) - Z.to_nat (chunk_overlap dp))
      + Z.to_nat (chunk_size dp) <= length ws)%nat) ->
  passing dp (Z.to_nat (chunk_size dp))
          (Z.to_nat (chunk_size dp) - Z.to_nat (chunk_overlap dp)) ws k
  = windows_passing (chunk_size dp) (chunk_overlap dp) ws k.
Proof.
  intros Hsize Hws Hfull. unfold passing, windows_passing.
  set (size := Z.to_nat (chunk_size dp)).
  set (step := (size - Z.to_nat (chunk_overlap dp))%nat).
  assert (E : forall j, In j (seq 0 k) ->
            strip (join (lit " ") (window size step ws j))
            = Spec.chunk_text (window size step ws j)).
  { intros j _. apply strip_join. now apply window_words. }
  rewrite (map_ext_in _ (fun j => ((j * step)%nat,
                                   Spec.chunk_text (window size step ws j)))).
  2:{ intros j Hj. now rewrite E. }
  apply filter_ext_in. intros [i c] Hin. apply in_map_iff in Hin.
  destruct Hin as (j & Ej & Hj). inversion Ej; subst i c. cbn [snd].
  apply in_seq in Hj. unfold Spec.chunk_text.
  assert (Hlen : chunk_size dp <= len (window size step ws j)).
  { unfold len. rewrite window_length by (apply Hfull; lia). subst size. lia. }
  rewrite threshold_code, threshold_spec;
    auto using window_words.
Qed.


(** The loop in closed form when [0 < overlap < size]. *)
Lemma interior_chunks_closed dp text :
  0 < chunk_overlap dp < chunk_size dp ->
  exists k,
    (forall j, (j < k)%nat ->
       (j * (Z.to_nat (chunk_size dp) - Z.to_nat (chunk_overlap dp))
        + Z.to_nat (chunk_size dp) <= length (split text))%nat)
    /\ (k * (Z.to_nat (chunk_size dp) - Z.to_nat (chunk_overlap dp))
        <= length (split text)
        < k * (Z.to_nat (chunk_size dp) - Z.to_nat (chunk_overlap dp))
          + Z.to_nat (chunk_size dp))%nat
    /\ interior_chunks dp text
       = windows_passing (chunk_size dp) (chunk_overlap dp) (split text) k
    /\ split_text_into_chunks dp text
       = map snd (interior_chunks dp text)
         ++ (let rest :=
               skipn (k * (Z.to_nat (chunk_size dp) - Z.to_nat (chunk_overlap dp)))
                     (split text) in
             if len (Spec.chunk_text rest) >=? 20
             then [Spec.chunk_text rest] else []).
Proof.
  intros Hpar.
  destruct (window_inv_loop dp (split text) [] traced_init 0 Hpar
              (window_inv_init dp ltac:(lia))) as [k Hinv].
  simpl app in Hinv. fold (traced_loop dp (split text)) in Hinv.
  destruct Hinv as [Hcur Hlow Hhigh Hfull Hstart Hstarts Hchunks].
  exists k. split; [exact Hfull|]. split; [lia|].
  assert (Eint : interior_chunks dp text
                 = windows_passing (chunk_size dp) (chunk_overlap dp)
                                   (split text) k).
  { unfold interior_chunks. rewrite Hstarts, Hchunks, combine_fst_snd.
    apply passing_windows; [lia|apply split_words|exact Hfull]. }
  split; [exact Eint|].
  rewrite split_text_into_chunks_loop.
  change chunker_init with (tr_state traced_init).
  rewrite <- (traced_erase dp (split text) traced_init).
  fold (traced_loop dp (split text)).
  rewrite (flush_spec _ (chunk_size dp) (chunk_overlap dp)).
  2:{ rewrite Hcur. apply Forall_skipn_words, split_words. }
  rewrite Hcur. cbn [Spec.accumulate]. f_equal.
  unfold interior_chunks. rewrite Hstarts, Hchunks, combine_fst_snd.
  reflexivity.
Qed.

Lemma num_windows_unique dp n k :
  0 < chunk_overlap dp < chunk_size dp ->
  (forall j, (j < k)%nat ->
     (j * stride dp + Z.to_nat (chunk_size dp) <= n)%nat) ->
  (k * stride dp <= n < k * stride dp + Z.to_nat (chunk_size dp))%nat ->
  k = num_windows dp n.
Proof.
  intros Hpar Hfull [Hlow Hhigh]. unfold num_windows.
  assert (Hstep : (0 < stride dp)%nat) by (unfold stride; lia).
  destruct k as [|k'].
  - destruct (Nat.ltb_spec n (Z.to_nat (chunk_size dp))); [reflexivity|lia].
  - specialize (Hfull k' ltac:(lia)).
    destruct (Nat.ltb_spec n (Z.to_nat (chunk_size dp))); [lia|].
    f_equal.
    apply (Nat.div_unique _ _ _
             (n - Z.to_nat (chunk_size dp) - k' * stride dp)); lia.
Qed.





(** ** Reconstruction of the word sequence *)

Lemma firstn_plus {A} (n m : nat) (l : list A) :
  firstn n l ++ firstn m (skipn n l) = firstn (n + m) l.
Proof.
  rewrite firstn_skipn_comm.
  replace (firstn n l) with (firstn n (firstn (n + m) l)).
  - apply firstn_skipn.
  - rewrite firstn_firstn. f_equal. lia.
Qed.

Lemma filter_all {A} (f : A -> bool) (l : list A) :
  length (filter f l) = length l -> filter f l = l.
Proof.
  intros H. apply filter_length_forallb in H.
  induction l as [|a l IH]; [reflexivity|]. simpl in *.
  apply andb_true_iff in H as [Ha Hl]. rewrite Ha. now rewrite IH.
Qed.

Lemma reconstruct_texts overlap (L : list (list str)) :
  Forall (Forall word_ok) L ->
  Spec.reconstruct overlap (map Spec.chunk_text L)
  = match L with
    | [] => []
    | l :: L' => l ++ flat_map (skipn (Z.to_nat overlap)) L'
    end.
Proof.
  intros H. destruct L as [|l L']; [reflexivity|].
  inversion H as [|? ? Hl HL']; subst. cbn [map Spec.reconstruct].
  unfold Spec.chunk_text at 1. rewrite split_join by assumption. f_equal.
  clear H Hl. induction HL' as [|l' L'' Hl' _ IH]; [reflexivity|].
  cbn [map flat_map]. unfold Spec.chunk_text at 1.
  rewrite split_join by assumption. now rewrite IH.
Qed.

(** The first window and the new words of the next [m] windows make up the
    words up to the end of window [m]. *)
Lemma windows_telescope size ov (ws : list str) m :
  (0 < ov < size)%nat ->
  (m * (size - ov) + size <= length ws)%nat ->
  window size (size - ov) ws 0
    ++ flat_map (skipn ov) (map (window size (size - ov) ws) (seq 1 m))
  = firstn (m * (size - ov) + size) ws.
Proof.
  intros Hpar. induction m as [|m IH]; intros Hlen.
  - simpl. now rewrite app_nil_r.
  - rewrite seq_S, map_app, flat_map_app, app_assoc, IH by lia.
    cbn [map flat_map]. rewrite app_nil_r. unfold window.
    rewrite skipn_firstn_comm, skipn_skipn.
    replace (ov + (1 + m) * (size - ov))%nat
      with (m * (size - ov) + size)%nat by lia.
    rewrite firstn_plus. f_equal. lia.
Qed.

(** For [0 < overlap < size], when no buffer is discarded (the result has
    one chunk per full window and one for the rest), a chunk followed by the
    non-overlapping portion of each successor is the word sequence of the
    text. *)
Lemma reconstruct_exhaustive (dp : DocumentProcessor) (text : str) :
  0 < chunk_overlap dp < chunk_size dp ->
  length (split_text_into_chunks dp text)
  = S (num_windows dp (length (split text))) ->
  Spec.reconstruct (chunk_overlap dp) (split_text_into_chunks dp text)
  = split text.
Proof.
  intros Hpar Hcount.
  destruct (interior_chunks_closed dp text Hpar)
    as (k & Hfull & Hbounds & Eint & Esplit).
  assert (Ek : k = num_windows dp (length (split text)))
    by (apply num_windows_unique; assumption).
  rewrite <- Ek in Hcount. clear Ek.
  rewrite Eint in Esplit. unfold windows_passing in Esplit.
  set (size := Z.to_nat (chunk_size dp)) in *.
  set (ov := Z.to_nat (chunk_overlap dp)) in *.
  assert (Hsz : (0 < ov < size)%nat) by (subst size ov; lia).
  set (W := map (fun j => ((j * (size - ov))%nat,
                           Spec.chunk_text
                             (window size (size - ov) (split text) j)))
                (seq 0 k)) in *.
  set (g := fun p : nat * str => Spec.long_enough (chunk_size dp) (snd p)) in *.
  set (rest := skipn (k * (size - ov)) (split text)) in *.
  assert (HW : length W = k) by (subst W; now rewrite length_map, length_seq).
  pose proof (filter_length_le g W) as Hle.
  rewrite Esplit in Hcount. rewrite length_app, length_map in Hcount.
  cbv zeta in Hcount, Esplit.
  destruct (len (Spec.chunk_text rest) >=? 20); simpl in Hcount; [|lia].
  rewrite filter_all in Esplit by lia.
  assert (EW : map snd W
               = map Spec.chunk_text
                     (map (window size (size - ov) (split text)) (seq 0 k))).
  { subst W. rewrite !map_map. reflexivity. }
  rewrite Esplit, EW.
  change [Spec.chunk_text rest] with (map Spec.chunk_text [rest]).
  rewrite <- map_app, reconstruct_texts.
  2:{ apply Forall_app. split.
      - apply Forall_forall. intros l Hl. apply in_map_iff in Hl.
        destruct Hl as (j & <- & _). apply window_words, split_words.
      - constructor; [|constructor]. apply Forall_skipn_words, split_words. }
  fold ov. destruct k as [|k'].
  - simpl. subst rest. simpl. now rewrite app_nil_r.
  - cbn [seq map app]. rewrite flat_map_app, app_assoc.
    rewrite windows_telescope by (try assumption; apply Hfull; lia).
    cbn [flat_map]. rewrite app_nil_r. subst rest. rewrite skipn_skipn.
    replace (ov + S k' * (size - ov))%nat
      with (k' * (size - ov) + size)%nat by lia.
    apply firstn_skipn.
Qed.

(** C8.  With overlap 0 (below the size 5) the buffer is never reset:
    [current_chunk[-0:]] is the whole buffer, every further word emits the
    whole prefix again, and a chunk followed by its successors is not the
    word sequence of the text. *)
Theorem overlap_zero_not_exhaustive :
  chunk_overlap dp50 < chunk_size dp50
  /\ split_text_into_chunks dp50 text7
     = [lit "alpha0 bravo1 charlie2 delta3 echo4";
        lit "alpha0 bravo1 charlie2 delta3 echo4 foxtrot5";
        lit "alpha0 bravo1 charlie2 delta3 echo4 foxtrot5 golf6";
        lit "alpha0 bravo1 charlie2 delta3 echo4 foxtrot5 golf6"]
  /\ length (Spec.reconstruct (chunk_overlap dp50)
                              (split_text_into_chunks dp50 text7)) = 25%nat
  /\ length (split text7) = 7%nat
  /\ Spec.reconstruct (chunk_overlap dp50) (split_text_into_chunks dp50 text7)
     <> split text7.
Proof.
  split; [reflexivity|]. split; [vm_compute; reflexivity|].
  split; [vm_compute; reflexivity|]. split; [vm_compute; reflexivity|].
  intros E. apply (f_equal (@length _)) in E. vm_compute in E. discriminate E.
Qed.

(* ------------------------------------------------------------------ *)
(** ** What a method leaves untouched *)

Lemma frame_refl P s : frame P s s.
Proof.
  split; [reflexivity|]. exists []. now rewrite app_nil_r.
Qed.

Lemma frame_trans P s1 s2 s3 : frame P s1 s2 -> frame P s2 s3 -> frame P s1 s3.
Proof.
  intros [E1 (evs1 & T1 & F1)] [E2 (evs2 & T2 & F2)]. split; [congruence|].
  exists (evs1 ++ evs2). split.
  - now rewrite T2, T1, app_assoc.
  - now apply Forall_app.
Qed.

Lemma frame_weaken (P Q : event -> Prop) s s' :
  (forall ev, P ev -> Q ev) -> frame P s s' -> frame Q s s'.
Proof.
  intros HPQ [E (evs & T & F)]. split; [exact E|]. exists evs.
  split; [exact T|]. eapply Forall_impl; eauto.
Qed.

Lemma keeps_weaken {A} (P Q : event -> Prop) (m : M A) :
  (forall ev, P ev -> Q ev) -> keeps P m -> keeps Q m.
Proof. intros HPQ H s. eapply frame_weaken; eauto. Qed.

Lemma keeps_ret {A} P (a : A) : keeps P (ret a).
Proof. intros s. apply frame_refl. Qed.

Lemma keeps_raise {A} P e : keeps P (@raise A e).
Proof. intros s. apply frame_refl. Qed.

Lemma keeps_lift {A} P (r : result A) : keeps P (lift r).
Proof. intros s. apply frame_refl. Qed.

Lemma keeps_emit (P : event -> Prop) ev : P ev -> keeps P (emit ev).
Proof.
  intros H s. split; [reflexivity|]. exists [ev]. split; [reflexivity|].
  now constructor.
Qed.

Lemma keeps_bind {A B} P (m : M A) (f : A -> M B) :
  keeps P m -> (forall a, keeps P (f a)) -> keeps P (bind m f).
Proof.
  intros Hm Hf s. unfold bind. specialize (Hm s).
  destruct (m s) as [[a|e] s1]; [|exact Hm].
  eapply frame_trans; [exact Hm|apply Hf].
Qed.

Lemma keeps_try {A} P (m : M A) (h : exn -> M A) :
  keeps P m -> (forall e, keeps P (h e)) -> keeps P (try_except m h).
Proof.
  intros Hm Hh s. unfold try_except. specialize (Hm s).
  destruct (m s) as [[a|e] s1]; [exact Hm|].
  eapply frame_trans; [exact Hm|apply Hh].
Qed.

Lemma keeps_for_each {A B} P (body : B -> A -> M B) xs :
  (forall acc x, keeps P (body acc x)) ->
  forall acc, keeps P (for_each body xs acc).
Proof.
  intros Hbody. induction xs as [|x xs IH]; intros acc; simpl.
  - apply keeps_ret.
  - apply keeps_bind; [apply Hbody|intros acc'; apply IH].
Qed.

Lemma keeps_get_rows P : keeps P get_rows.
Proof. intros s. apply frame_refl. Qed.

Lemma keeps_call (P : event -> Prop) w ev : P ev -> keeps P (Chroma.call w ev).
Proof.
  intros H. unfold Chroma.call. apply keeps_bind; [now apply keeps_emit|].
  intros _ s. destruct (store_fault w (trace s)); apply frame_refl.
Qed.

Lemma keeps_ensure_model (P : event -> Prop) w config :
  (forall name, P (LoadModel name)) -> keeps P (VectorStore._ensure_model w config).
Proof.
  intros H s. unfold VectorStore._ensure_model.
  destruct (model_loaded s); [apply frame_refl|].
  destruct (load_model w (embedding_model config)); simpl;
    (split; [reflexivity|]; eexists; split; [reflexivity|]; constructor; auto).
Qed.

Lemma keeps_model_encode (P : event -> Prop) w texts :
  (forall t, P (Encode t)) -> keeps P (VectorStore.model_encode w texts).
Proof.
  intros H. unfold VectorStore.model_encode.
  apply keeps_bind; [now apply keeps_emit|]. intros _. apply keeps_lift.
Qed.

Lemma keeps_primary_extract P w pdf_path : keeps P (primary_extract w pdf_path).
Proof.
  unfold primary_extract. apply keeps_try; [|intros e; apply keeps_raise].
  apply keeps_bind; [apply keeps_lift|]. intros pages.
  destruct (truthy (page_text pages) && truthy (strip (page_text pages)));
    apply keeps_ret.
Qed.

(** The OCR fallback starts with the import of [pdf2image]; what follows
    calls the OCR libraries only. *)
Lemma ocr_fallback_steps w self pdf_path :
  exists rest,
    ocr_fallback w self pdf_path
    = try_except (emit ImportPdf2image ;;; rest) (fun e => raise e)
    /\ keeps off_store rest.
Proof.
  eexists. split; [reflexivity|].
  destruct (pdf2image_installed w); cbn [negb]; [|apply keeps_ret].
  apply keeps_bind; [now apply keeps_emit|]. intros _.
  destruct (pytesseract_installed w); cbn [negb]; [|apply keeps_ret].
  apply keeps_bind; [now apply keeps_emit|]. intros _.
  apply keeps_bind; [apply keeps_lift|]. intros images.
  apply keeps_bind.
  - apply keeps_for_each. intros acc img.
    apply keeps_bind; [now apply keeps_emit|]. intros _.
    apply keeps_bind; [apply keeps_lift|]. intros t. apply keeps_ret.
  - intros ocr_text.
    destruct (truthy ocr_text && truthy (strip ocr_text)); apply keeps_ret.
Qed.

Lemma keeps_ocr_fallback w self pdf_path :
  keeps off_store (ocr_fallback w self pdf_path).
Proof.
  destruct (ocr_fallback_steps w self pdf_path) as (rest & -> & Hrest).
  apply keeps_try; [|intros e; apply keeps_raise].
  apply keeps_bind; [now apply keeps_emit|]. intros _. exact Hrest.
Qed.

Lemma ocr_fallback_attempted w self pdf_path s :
  ocr_attempted s (snd (ocr_fallback w self pdf_path s)).
Proof.
  destruct (ocr_fallback_steps w self pdf_path) as (rest & -> & Hrest).
  pose proof (keeps_try off_store rest (fun e => raise e) Hrest
                (fun e => keeps_raise _ e) (snd (emit ImportPdf2image s)))
    as [_ (evs & T & _)].
  exists evs. cbn [emit snd trace] in T. rewrite <- app_assoc in T. exact T.
Qed.

Lemma keeps_extract w self pdf_path :
  keeps off_store (extract_text_from_pdf w self pdf_path).
Proof.
  unfold extract_text_from_pdf.
  apply keeps_bind; [apply keeps_primary_extract|].
  intros [text|]; [apply keeps_ret|apply keeps_ocr_fallback].
Qed.

Lemma new_events_app s s' evs :
  trace s' = trace s ++ evs -> new_events s s' = evs.
Proof.
  intros E. unfold new_events. rewrite E, skipn_app, Nat.sub_diag.
  rewrite skipn_all2 by lia. reflexivity.
Qed.

Lemma adds_off_store evs : Forall no_write evs -> adds evs = [].
Proof.
  induction 1 as [|ev evs Hev _ IH]; [reflexivity|].
  unfold adds in *. simpl. rewrite IH. now destruct ev.
Qed.

Lemma off_store_no_write ev : off_store ev -> no_write ev.
Proof. now destruct ev. Qed.

Lemma has_text_strip (t : str) :
  truthy t && truthy (strip t) = truthy (strip t).
Proof. destruct t; [reflexivity|]. reflexivity. Qed.

(* ------------------------------------------------------------------ *)
(** ** Text extraction *)



(* ------------------------------------------------------------------ *)
(** ** Adding a document *)

Lemma metas_repeat {A} (base_meta : meta) (chunks : list A) :
  fold_left (fun metas _ => metas ++ [base_meta]) chunks []
  = repeat base_meta (length chunks).
Proof.
  assert (H : forall acc, fold_left (fun metas _ => metas ++ [base_meta]) chunks acc
                          = acc ++ repeat base_meta (length chunks)).
  { induction chunks as [|c chunks IH]; intros acc; simpl.
    - now rewrite app_nil_r.
    - rewrite IH, <- app_assoc. reflexivity. }
  apply (H []).
Qed.

Lemma add_document_run w config document_id pdf_path metadata s :
  VectorStore.add_document w config document_id pdf_path metadata s
  = match extract_text_from_pdf w (processor config) pdf_path s with
    | (Raise e, s1) => (Raise e, s1)
    | (Ok text, s1) =>
        if negb (truthy text) || negb (truthy (strip text))
        then (Raise (ValueError (lit "No extractable text found in PDF")), s1)
        else
          let chunks := split_text_into_chunks (processor config) text in
          if negb (truthy chunks)
          then (Raise (ValueError (lit "No textual content to index from PDF")),
                s1)
          else
            match VectorStore._ensure_model w config s1 with
            | (Raise e, s2) => (Raise e, s2)
            | (Ok _, s2) =>
                match VectorStore.model_encode w chunks s2 with
                | (Raise e, s3) => (Raise e, s3)
                | (Ok embeddings, s3) =>
                    if VectorStore.no_vectors embeddings
                    then (Raise (ValueError
                                   (lit "Embedding model returned no vectors for chunks")),
                          s3)
                    else if negb (truthy (VectorStore.emb_list_of embeddings))
                            || negb (len (VectorStore.emb_list_of embeddings)
                                     =? len chunks)
                    then (Raise (ValueError (lit "Embeddings/chunks length mismatch")),
                          s3)
                    else
                      match Chroma.add w (batch_of document_id pdf_path metadata
                                            chunks
                                            (VectorStore.emb_list_of embeddings)) s3
                      with
                      | (Raise e, s4) => (Raise e, s4)
                      | (Ok u, s4) => (Ok u, s4)
                      end
                end
            end
    end.
Proof.
  unfold VectorStore.add_document, try_except, bind.
  destruct (extract_text_from_pdf w (processor config) pdf_path s)
    as [[text|e] s1]; [|reflexivity].
  destruct (negb (truthy text) || negb (truthy (strip text))); [reflexivity|].
  cbv zeta.
  destruct (negb (truthy (split_text_into_chunks (processor config) text)));
    [reflexivity|].
  destruct (VectorStore._ensure_model w config s1) as [[u|e] s2];
    [|reflexivity].
  destruct (VectorStore.model_encode w _ s2) as [[embeddings|e] s3];
    [|reflexivity].
  destruct (VectorStore.no_vectors embeddings); [reflexivity|].
  destruct (negb (truthy (VectorStore.emb_list_of embeddings))
            || negb (len (VectorStore.emb_list_of embeddings) =? _));
    [reflexivity|].
  unfold batch_of. rewrite metas_repeat. reflexivity.
Qed.

Lemma chroma_add_run w b s :
  Chroma.add w b s
  = let logged := {| collection := collection s;
                     model_loaded := model_loaded s;
                     trace := trace s ++ [CollectionAdd b] |} in
    match store_fault w (trace s ++ [CollectionAdd b]) with
    | Some e => (Raise e, logged)
    | None =>
        (Ok tt, {| collection := Chroma.insert_rows (Chroma.rows_of_batch b)
                                                     (collection s);
                   model_loaded := model_loaded s;
                   trace := trace s ++ [CollectionAdd b] |})
    end.
Proof.
  unfold Chroma.add, Chroma.call, bind, emit, get_rows, set_rows. cbn.
  now destruct (store_fault w (trace s ++ [CollectionAdd b])).
Qed.

Lemma add_document_outcome w config document_id pdf_path metadata s :
  add_outcome w config document_id pdf_path metadata s
    (fst (VectorStore.add_document w config document_id pdf_path metadata s))
    (snd (VectorStore.add_document w config document_id pdf_path metadata s)).
Proof.
  rewrite add_document_run.
  pose proof (keeps_extract w (processor config) pdf_path s) as F1.
  destruct (extract_text_from_pdf w (processor config) pdf_path s)
    as [[text|e] s1] eqn:Ex; cbn [snd] in F1; [|now constructor].
  destruct (negb (truthy text) || negb (truthy (strip text)));
    [now constructor|].
  cbv zeta.
  destruct (split_text_into_chunks (processor config) text) as [|c cs] eqn:Ec;
    [now constructor|]. cbn [truthy negb].
  pose proof (keeps_ensure_model off_store w config (fun _ => I) s1) as F2.
  destruct (VectorStore._ensure_model w config s1) as [[u|e] s2];
    cbn [snd] in F2;
    [|constructor; eapply frame_trans; eauto].
  pose proof (keeps_model_encode off_store w (c :: cs) (fun _ => I) s2) as F3.
  assert (F13 : frame off_store s
                  (snd (VectorStore.model_encode w (c :: cs) s2))).
  { eapply frame_trans; [|exact F3]. eapply frame_trans; eauto. }
  assert (Eenc : fst (VectorStore.model_encode w (c :: cs) s2)
                 = encode w (c :: cs)) by reflexivity.
  destruct (VectorStore.model_encode w (c :: cs) s2) as [[embeddings|e] s3];
    cbn [fst snd] in *; [|now constructor].
  destruct (VectorStore.no_vectors embeddings); [now constructor|].
  destruct (VectorStore.emb_list_of embeddings) as [|v vs] eqn:El;
    [now constructor|]. cbn [truthy negb orb].
  destruct (Z.eqb_spec (len (v :: vs)) (len (c :: cs))) as [Elen|Hne];
    cbn [negb]; [|now constructor].
  rewrite chroma_add_run. cbv zeta.
  destruct F13 as [Ecoll F13].
  destruct (store_fault w (trace s3 ++ [CollectionAdd _])) as [e|] eqn:Ef.
  - cbn [fst snd].
    eapply (add_written _ _ _ _ _ _ s3 text embeddings);
      rewrite ?Ec, ?El; try reflexivity; try discriminate.
    + split; assumption.
    + now rewrite Ex.
    + now rewrite Eenc.
    + unfold len in Elen. lia.
    + right. split; [|exact Ecoll]. exists e. split; [reflexivity|].
      cbn [trace]. exact Ef.
  - cbn [fst snd].
    eapply (add_written _ _ _ _ _ _ s3 text embeddings);
      rewrite ?Ec, ?El; try reflexivity; try discriminate.
    + split; assumption.
    + now rewrite Ex.
    + now rewrite Eenc.
    + unfold len in Elen. lia.
    + left. split; [reflexivity|]. cbn [collection]. now rewrite Ecoll.
Qed.

Lemma adds_app evs1 evs2 : adds (evs1 ++ evs2) = adds evs1 ++ adds evs2.
Proof. apply flat_map_app. Qed.

Lemma adds_frame s s' : frame off_store s s' -> adds (new_events s s') = [].
Proof.
  intros [_ (evs & T & F)]. rewrite (new_events_app _ _ _ T).
  apply adds_off_store. eapply Forall_impl; [|exact F].
  exact off_store_no_write.
Qed.

Lemma adds_written s s3 s' b :
  frame off_store s s3 -> trace s' = trace s3 ++ [CollectionAdd b] ->
  adds (new_events s s') = [b].
Proof.
  intros [_ (evs & T & F)] T'. rewrite T, <- app_assoc in T'.
  rewrite (new_events_app _ _ _ T'), adds_app.
  rewrite adds_off_store; [reflexivity|].
  eapply Forall_impl; [|exact F]. exact off_store_no_write.
Qed.

(** C2.  Whenever [add_document] calls [collection.add], the batch has as
    many embeddings and as many metadata mappings as chunks; and when the
    model returns a number of embeddings that differs from the number of
    chunks, the call raises, [collection.add] is not called and the rows of
    the store are as before. *)
Theorem add_document_consistent_batch
        (w : world) (config : RAGConfig) (document_id pdf_path : str)
        (metadata : option raw_meta) (s : state) :
  let out := VectorStore.add_document w config document_id pdf_path metadata s in
  (forall b, In b (adds (new_events s (snd out))) ->
     length (b_embeddings b) = length (b_documents b)
     /\ length (b_metadatas b) = length (b_documents b))
  /\ (forall text s1 embeddings,
        extract_text_from_pdf w (processor config) pdf_path s = (Ok text, s1) ->
        encode w (split_text_into_chunks (processor config) text)
        = Ok embeddings ->
        length (VectorStore.emb_list_of embeddings)
        <> length (split_text_into_chunks (processor config) text) ->
        (exists e, fst out = Raise e)
        /\ adds (new_events s (snd out)) = []
        /\ collection (snd out) = collection s).
Proof.
  intros out. subst out.
  pose proof (add_document_outcome w config document_id pdf_path metadata s)
    as H.
  split.
  - intros b Hb.
    inversion H as [e s' F E1 E2
                   |s3 text embeddings r s' F Ex chunks b0 Hne Henc Hlen T Hres E1 E2].
    + rewrite (adds_frame _ _ F) in Hb. contradiction.
    + rewrite (adds_written _ _ _ _ F T) in Hb. destruct Hb as [<-|[]].
      subst b0. cbn [batch_of b_embeddings b_documents b_metadatas].
      now rewrite repeat_length.
  - intros text s1 embeddings Ex Henc Hlen.
    inversion H as [e s' F E1 E2
                   |s3 text' embeddings' r s' F Ex' chunks b0 Hne Henc' Hlen' T Hres E1 E2].
    + split; [now exists e|]. split; [now apply adds_frame|apply F].
    + exfalso. rewrite Ex in Ex'. cbn [fst] in Ex'. inversion Ex'; subst text'.
      subst chunks. rewrite Henc in Henc'. inversion Henc'; subst embeddings'.
      contradiction.
Qed.

Lemma rejected_frame {A} s (out : result A * state) e :
  fst out = Raise e -> frame off_store s (snd out) -> rejected_unstored s out e.
Proof.
  intros E F. split; [exact E|]. split; [apply F|now apply adds_frame].
Qed.

(** C3.  An ingest of a path that does not exist raises
    [FileNotFoundError]; an ingest whose extraction yields no text, whose
    chunking yields no chunk or whose model returns no vector raises a
    [ValueError] that says so; in each of these cases the rows of the store
    are as before and [collection.add] has not been called.  An ingest that
    raises has either made no call to the store at all or failed in its one
    [collection.add]. *)
Theorem ingest_rejects_before_storing
        (w : world) (config : RAGConfig) (document_id pdf_path : str)
        (metadata : option raw_meta) (s : state) :
  let out := RAGSystem.add_pdf_document w config document_id pdf_path metadata s in
  (path_exists w pdf_path = false ->
   out = (Raise (FileNotFoundError (lit "PDF file not found: " ++ pdf_path)), s))
  /\ (forall text,
        path_exists w pdf_path = true ->
        fst (extract_text_from_pdf w (processor config) pdf_path s) = Ok text ->
        let chunks := split_text_into_chunks (processor config) text in
        (strip text = [] ->
         rejected_unstored s out
           (ValueError (lit "No extractable text found in PDF")))
        /\ (strip text <> [] -> chunks = [] ->
            rejected_unstored s out
              (ValueError (lit "No textual content to index from PDF")))
        /\ (forall embeddings,
              strip text <> [] -> chunks <> [] ->
              load_model w (embedding_model config) = None ->
              encode w chunks = Ok embeddings ->
              VectorStore.no_vectors embeddings = true ->
              rejected_unstored s out
                (ValueError
                   (lit "Embedding model returned no vectors for chunks"))))
  /\ (forall e, fst out = Raise e ->
        frame off_store s (snd out)
        \/ store_fault w (trace (snd out)) = Some e
           /\ collection (snd out) = collection s).
Proof.
  intros out. subst out. unfold RAGSystem.add_pdf_document.
  split; [|split].
  - intros Hp. now rewrite Hp.
  - intros text Hp Ex. rewrite Hp. cbn [negb].
    set (chunks := split_text_into_chunks (processor config) text).
    rewrite add_document_run.
    pose proof (keeps_extract w (processor config) pdf_path s) as F1.
    destruct (extract_text_from_pdf w (processor config) pdf_path s)
      as [[text'|e] s1]; cbn [fst snd] in *; [|discriminate].
    inversion Ex; subst text'. clear Ex.
    split; [|split].
    + intros Hblank. rewrite Hblank. cbn [truthy negb]. rewrite orb_true_r.
      now apply rejected_frame.
    + intros Htext Hnone.
      destruct text as [|c t]; [contradiction|].
      destruct (strip (c :: t)); [contradiction|]. cbn [truthy negb orb].
      cbv zeta. fold chunks. rewrite Hnone. cbn [truthy negb].
      now apply rejected_frame.
    + intros embeddings Htext Hsome Hload Henc Hzero.
      destruct text as [|c t]; [contradiction|].
      destruct (strip (c :: t)); [contradiction|]. cbn [truthy negb orb].
      cbv zeta. fold chunks.
      destruct chunks as [|k0 cs] eqn:Ec; [contradiction|]. cbn [truthy negb].
      pose proof (keeps_ensure_model off_store w config (fun _ => I) s1) as F2.
      assert (Eload : fst (VectorStore._ensure_model w config s1) = Ok tt).
      { unfold VectorStore._ensure_model. destruct (model_loaded s1);
          [reflexivity|]. now rewrite Hload. }
      destruct (VectorStore._ensure_model w config s1) as [[u|e] s2];
        cbn [fst snd] in *; [|discriminate].
      pose proof (keeps_model_encode off_store w (k0 :: cs) (fun _ => I) s2)
        as F3.
      unfold VectorStore.model_encode, bind, emit, lift in *.
      cbn [fst snd] in *. rewrite Henc in *. rewrite Hzero.
      apply rejected_frame; [reflexivity|].
      eapply frame_trans; [|exact F3]. eapply frame_trans; eauto.
  - intros e He. destruct (path_exists w pdf_path); cbn [negb] in *.
    + pose proof (add_document_outcome w config document_id pdf_path metadata s)
        as H.
      inversion H as [e' s' F E1 E2
                     |s3 text embeddings r s' F Ex chunks b0 Hne Henc Hlen T Hres E1 E2].
      * now left.
      * right. destruct Hres as [[Hr _]|[(e' & Hr & Hf) Hc]].
        -- rewrite He in Hr. discriminate.
        -- rewrite He in Hr. inversion Hr; subst e'. now split.
    + left. apply frame_refl.
Qed.

(* ------------------------------------------------------------------ *)
(** ** Dictionaries *)

Lemma eqb_eq a b : eqb a b = true <-> a = b.
Proof.
  unfold eqb. destruct (list_eq_dec N.eq_dec a b); split; auto; discriminate.
Qed.

Lemma eqb_refl a : eqb a a = true.
Proof. now apply eqb_eq. Qed.

Lemma eqb_neq a b : eqb a b = false <-> a <> b.
Proof.
  unfold eqb. destruct (list_eq_dec N.eq_dec a b); split; auto;
    try discriminate. intros H. contradiction.
Qed.


Lemma dict_get_set_same {V} k (v : V) d : dict_get k (dict_set k v d) = Some v.
Proof.
  induction d as [|[k' v'] d IH]; simpl.
  - now rewrite eqb_refl.
  - destruct (eqb k k') eqn:E; simpl; rewrite E; [reflexivity|exact IH].
Qed.

Lemma dict_get_set_other {V} k k' (v : V) d :
  k <> k' -> dict_get k (dict_set k' v d) = dict_get k d.
Proof.
  intros Hne. induction d as [|[k0 v0] d IH]; simpl.
  - apply eqb_neq in Hne. now rewrite Hne.
  - destruct (eqb k' k0) eqn:E; simpl.
    + apply eqb_eq in E. subst k0. apply eqb_neq in Hne. now rewrite Hne.
    + destruct (eqb k k0); [reflexivity|exact IH].
Qed.

(** A key of a coerced mapping is the string of a key of the caller. *)
Lemma coerce_meta_keys (raw : raw_meta) k :
  (forall kv, In kv raw -> py_str (fst kv) <> k) ->
  dict_get k (coerce_meta raw) = None.
Proof.
  unfold coerce_meta.
  assert (H : forall d, dict_get k d = None ->
              (forall kv, In kv raw -> py_str (fst kv) <> k) ->
              dict_get k
                (fold_left (fun d kv => dict_set (py_str (fst kv))
                                                 (py_str (snd kv)) d) raw d)
              = None).
  { induction raw as [|kv raw IH]; intros d Hd Hraw; [exact Hd|].
    simpl. apply IH.
    - rewrite dict_get_set_other; [exact Hd|].
      intros E. apply (Hraw kv); [now left|now symmetry].
    - intros kv' Hin. apply Hraw. now right. }
  intros Hraw. now apply H.
Qed.

Lemma dict_set_set {V} k (v1 v2 : V) d :
  dict_set k v2 (dict_set k v1 d) = dict_set k v2 d.
Proof.
  induction d as [|[k' v'] d IH]; simpl.
  - now rewrite eqb_refl.
  - destruct (eqb k k') eqn:E; simpl; rewrite E; [reflexivity|].
    now rewrite IH.
Qed.

Lemma dict_get_notin {V} k (d : dict V) :
  dict_get k d = None <-> ~ In k (map fst d).
Proof.
  induction d as [|[k' v'] d IH]; simpl; [tauto|].
  destruct (eqb k k') eqn:E.
  - apply eqb_eq in E. subst. split; [discriminate|]. intros H. exfalso. auto.
  - apply eqb_neq in E. rewrite IH. split.
    + intros H [H'|H']; [now apply E|now apply H].
    + intros H H'. apply H. now right.
Qed.

Lemma dict_set_keys {V} k (v : V) d :
  map fst (dict_set k v d)
  = match dict_get k d with
    | Some _ => map fst d
    | None => map fst d ++ [k]
    end.
Proof.
  induction d as [|[k' v'] d IH]; simpl; [reflexivity|].
  destruct (eqb k k') eqn:E; simpl; [reflexivity|].
  rewrite IH. now destruct (dict_get k d).
Qed.

Lemma dict_set_nodup {V} k (v : V) d :
  NoDup (map fst d) -> NoDup (map fst (dict_set k v d)).
Proof.
  intros H. rewrite dict_set_keys. destruct (dict_get k d) eqn:E; [exact H|].
  apply dict_get_notin in E. apply NoDup_app; [exact H| |].
  - constructor; [intros []|constructor].
  - intros x Hx [<-|[]]. contradiction.
Qed.

Lemma dict_in_get {V} k (v : V) d :
  NoDup (map fst d) -> In (k, v) d -> dict_get k d = Some v.
Proof.
  induction d as [|[k' v'] d IH]; simpl; [intros _ []|].
  intros Hnd [E|Hin].
  - inversion E; subst. now rewrite eqb_refl.
  - inversion Hnd as [|? ? Hk' Hd]; subst.
    destruct (eqb k k') eqn:E.
    + apply eqb_eq in E. subst k'. exfalso. apply Hk'.
      now apply (in_map fst) in Hin.
    + now apply IH.
Qed.

(* ------------------------------------------------------------------ *)
(** ** Listing the documents *)

Lemma group_step_run documents m s :
  RAGSystem.group_step documents (Some m) s = (Ok (group documents m), s).
Proof.
  unfold RAGSystem.group_step, group. fold (doc_key m).
  destruct (dict_get (doc_key m) documents) as [d|] eqn:E.
  - now rewrite E.
  - rewrite dict_get_set_same. cbn [RAGSystem.s_document_id RAGSystem.s_source
                                     RAGSystem.s_chunks ret].
    now rewrite dict_set_set.
Qed.

Lemma for_each_group metas : forall documents s,
  for_each RAGSystem.group_step (map Some metas) documents s
  = (Ok (fold_left group metas documents), s).
Proof.
  induction metas as [|m metas IH]; intros documents s; [reflexivity|].
  cbn [map for_each fold_left]. unfold bind. rewrite group_step_run. apply IH.
Qed.

Lemma group_chunks k documents m :
  chunks_of k (group documents m)
  = if eqb (doc_key m) k
    then Some (match chunks_of k documents with Some c => c + 1 | None => 1 end)
    else chunks_of k documents.
Proof.
  unfold chunks_of, group. destruct (eqb (doc_key m) k) eqn:E.
  - apply eqb_eq in E. subst k.
    destruct (dict_get (doc_key m) documents); now rewrite dict_get_set_same.
  - apply eqb_neq in E.
    destruct (dict_get (doc_key m) documents);
      rewrite dict_get_set_other by congruence; reflexivity.
Qed.

Lemma fold_group_chunks k metas : forall documents,
  chunks_of k (fold_left group metas documents)
  = match chunks_of k documents with
    | Some c => Some (c + count_key k metas)
    | None => if count_key k metas =? 0 then None
              else Some (count_key k metas)
    end.
Proof.
  unfold count_key, len.
  induction metas as [|m metas IH]; intros documents.
  - simpl. destruct (chunks_of k documents); [f_equal; lia|reflexivity].
  - cbn [fold_left filter]. rewrite IH, group_chunks.
    destruct (eqb (doc_key m) k); cbn [length].
    + set (n := length (filter (fun m' => eqb (doc_key m') k) metas)).
      destruct (chunks_of k documents); [f_equal; lia|].
      destruct (Z.eqb_spec (Z.of_nat n) 0);
        destruct (Z.eqb_spec (Z.of_nat (S n)) 0); try lia; f_equal; lia.
    + reflexivity.
Qed.

Lemma group_well_keyed keys documents m :
  In (doc_key m) keys -> well_keyed keys documents ->
  well_keyed keys (group documents m).
Proof.
  intros Hin [Hnd Hk]. split.
  - unfold group. destruct (dict_get (doc_key m) documents);
      now apply dict_set_nodup.
  - intros k d. unfold group.
    destruct (dict_get (doc_key m) documents) as [d0|] eqn:E;
      (destruct (eqb k (doc_key m)) eqn:Ek;
       [apply eqb_eq in Ek; subst k; rewrite dict_get_set_same;
        intros Hd; inversion Hd; subst d; cbn;
        split; [|exact Hin]
       |apply eqb_neq in Ek; rewrite dict_get_set_other by exact Ek;
        apply Hk]).
    + now apply (Hk _ _ E).
    + reflexivity.
Qed.

Lemma fold_group_well_keyed keys metas : forall documents,
  (forall m, In m metas -> In (doc_key m) keys) ->
  well_keyed keys documents ->
  well_keyed keys (fold_left group metas documents).
Proof.
  induction metas as [|m metas IH]; intros documents Hkeys Hwk; [exact Hwk|].
  simpl. apply IH.
  - intros m' Hm'. apply Hkeys. now right.
  - apply group_well_keyed; [apply Hkeys; now left|exact Hwk].
Qed.

Lemma chroma_get_run w where_ s :
  Chroma.get w where_ s
  = let logged := {| collection := collection s;
                     model_loaded := model_loaded s;
                     trace := trace s ++ [CollectionGet where_] |} in
    match store_fault w (trace s ++ [CollectionGet where_]) with
    | Some e => (Raise e, logged)
    | None =>
        (Ok {| g_ids := map row_id (filter (Chroma.matches where_) (collection s));
               g_metadatas :=
                 Some (map row_metadata
                           (filter (Chroma.matches where_) (collection s))) |},
         logged)
    end.
Proof.
  unfold Chroma.get, Chroma.call, bind, emit, get_rows. cbn.
  now destruct (store_fault w (trace s ++ [CollectionGet where_])).
Qed.

Lemma filter_true {A} (l : list A) : filter (fun _ => true) l = l.
Proof. induction l as [|a l IH]; [reflexivity|]. simpl. now rewrite IH. Qed.

(** What [list_documents] returns when every row has metadata and the store
    answers: one record per document key, with the number of rows counted
    under that key. *)
Lemma list_documents_summaries w s metas :
  store_fault w (trace s ++ [CollectionGet None]) = None ->
  map row_metadata (collection s) = map Some metas ->
  exists l,
    fst (RAGSystem.list_documents w s) = Ok l
    /\ (forall d, In d l ->
          In (RAGSystem.s_document_id d) (map doc_key metas)
          /\ RAGSystem.s_chunks d = count_key (RAGSystem.s_document_id d) metas)
    /\ (forall m, In m metas ->
          exists d, In d l /\ RAGSystem.s_document_id d = doc_key m).
Proof.
  intros Hok Hmetas.
  unfold RAGSystem.list_documents, RAGSystem.list_body, try_except, bind.
  rewrite chroma_get_run. cbv zeta. rewrite Hok.
  cbn [g_metadatas Chroma.matches]. rewrite filter_true, Hmetas.
  rewrite for_each_group. cbn [fst ret].
  exists (map snd (fold_left group metas [])). split; [reflexivity|].
  assert (Hwk : well_keyed (map doc_key metas) (fold_left group metas [])).
  { apply fold_group_well_keyed.
    - intros m Hm. now apply in_map.
    - split; [constructor|]. intros k d Hd. discriminate Hd. }
  destruct Hwk as [Hnd Hk]. split.
  - intros d Hd. apply in_map_iff in Hd. destruct Hd as ([k d'] & <- & Hin).
    cbn [snd]. pose proof (dict_in_get _ _ _ Hnd Hin) as Hget.
    destruct (Hk _ _ Hget) as [Eid Hkey]. rewrite Eid. split; [exact Hkey|].
    pose proof (fold_group_chunks k metas []) as Hc.
    unfold chunks_of in Hc at 1. rewrite Hget in Hc. cbn in Hc.
    destruct (count_key k metas =? 0); now inversion Hc.
  - intros m Hm.
    pose proof (fold_group_chunks (doc_key m) metas []) as Hc.
    cbn [chunks_of dict_get] in Hc.
    assert (Hpos : count_key (doc_key m) metas <> 0).
    { unfold count_key, len.
      assert (In m (filter (fun m' => eqb (doc_key m') (doc_key m)) metas)).
      { apply filter_In. split; [exact Hm|apply eqb_refl]. }
      destruct (filter _ metas); [contradiction|]. simpl. lia. }
    apply Z.eqb_neq in Hpos. unfold chunks_of in Hc. rewrite Hpos in Hc.
    destruct (dict_get (doc_key m) (fold_left group metas [])) as [d|] eqn:E;
      [|discriminate].
    exists d. split; [|now apply (Hk _ _ E)].
    apply in_map_iff. exists (doc_key m, d). split; [reflexivity|].
    clear - E. induction (fold_left group metas []) as [|[k' v'] l IH];
      [discriminate|]. simpl in E. destruct (eqb (doc_key m) k') eqn:Ek.
    + apply eqb_eq in Ek. inversion E; subst. now left.
    + right. now apply IH.
Qed.

(* ------------------------------------------------------------------ *)
(** ** Metadata of the stored chunks *)

(** C10, as amended.  Every chunk of the batch that [add_document] hands to
    the store carries the same mapping.  For a non-empty caller mapping it
    is that mapping with keys and values turned into strings, to which
    neither [document_id] nor [source] is added; the mapping
    [{source: pdf_path, document_id: document_id}] is stored when the caller
    passes no mapping or an empty one.  A chunk whose mapping has no
    [document_id] key is not selected by the filter of [delete_document],
    and [list_documents] counts it in its record for ["unknown"]. *)
Theorem add_document_metadata
        (w : world) (config : RAGConfig) (document_id pdf_path : str)
        (metadata : option raw_meta) (s : state) :
  let out := VectorStore.add_document w config document_id pdf_path metadata s in
  let stored :=
    coerce_meta (VectorStore.base_raw_of document_id pdf_path metadata) in
  (forall b, In b (adds (new_events s (snd out))) ->
     b_metadatas b = repeat stored (length (b_documents b)))
  /\ (forall kv rest,
        metadata = Some (kv :: rest) ->
        stored = coerce_meta (kv :: rest)
        /\ (forall k, (forall kv', In kv' (kv :: rest) -> py_str (fst kv') <> k) ->
                      dict_get k stored = None))
  /\ (metadata = None \/ metadata = Some [] ->
      stored = [(lit "source", pdf_path); (lit "document_id", document_id)])
  /\ (forall m : meta,
        dict_get (lit "document_id") m = None ->
        (forall r id,
            row_metadata r = Some m ->
            Chroma.matches (Some (lit "document_id", id)) r = false)
        /\ (forall st metas,
               store_fault w (trace st ++ [CollectionGet None]) = None ->
               map row_metadata (collection st) = map Some metas ->
               In m metas ->
               exists l d,
                 fst (RAGSystem.list_documents w st) = Ok l
                 /\ In d l
                 /\ RAGSystem.s_document_id d = lit "unknown"
                 /\ RAGSystem.s_chunks d = count_key (lit "unknown") metas
                 /\ 1 <= RAGSystem.s_chunks d)).
Proof.
  intros out stored. subst out stored. split; [|split; [|split]].
  - intros b Hb.
    pose proof (add_document_outcome w config document_id pdf_path metadata s)
      as H.
    inversion H as [e s' F E1 E2
                   |s3 text embeddings r s' F Ex chunks b0 Hne Henc Hlen T Hres E1 E2].
    + rewrite (adds_frame _ _ F) in Hb. contradiction.
    + rewrite (adds_written _ _ _ _ F T) in Hb. destruct Hb as [<-|[]].
      reflexivity.
  - intros kv rest ->. split; [reflexivity|].
    intros k Hk. now apply coerce_meta_keys.
  - intros [->| ->]; reflexivity.
  - intros m Hm. split.
    + intros r id Hr. unfold Chroma.matches. now rewrite Hr, Hm.
    + intros st metas Hok Hmetas Hin.
      destruct (list_documents_summaries w st metas Hok Hmetas)
        as (l & El & Hall & Hsome).
      assert (Ekey : doc_key m = lit "unknown") by (unfold doc_key; now rewrite Hm).
      destruct (Hsome m Hin) as (d & Hd & Eid). rewrite Ekey in Eid.
      destruct (Hall d Hd) as [_ Hc]. rewrite Eid in Hc.
      exists l, d. repeat split; try assumption.
      rewrite Hc. unfold count_key, len.
      assert (In m (filter (fun m' => eqb (doc_key m') (lit "unknown")) metas)).
      { apply filter_In. split; [exact Hin|]. rewrite Ekey. apply eqb_refl. }
      destruct (filter _ metas); [contradiction|]. simpl. lia.
Qed.

(** C10, as stated, fails: an empty mapping is not [None], yet the chunks
    are stored with the default mapping, [source] and [document_id]
    included, and not with the (empty) mapping of the caller. *)
Lemma empty_metadata_gets_default :
  exists b,
    adds (new_events empty_state
            (snd (VectorStore.add_document demo_world demo_config (lit "A")
                    demo_path (Some []) empty_state))) = [b]
    /\ b_metadatas b
       = [[(lit "source", demo_path); (lit "document_id", lit "A")]]
    /\ b_metadatas b <> repeat (coerce_meta []) (length (b_documents b)).
Proof.
  eexists. split; [vm_compute; reflexivity|].
  split; [reflexivity|]. cbn. discriminate.
Qed.

(* ------------------------------------------------------------------ *)
(** ** Reading never raises *)

Lemma zip_hits_nil_l dists metas : VectorStore.zip_hits [] dists metas = [].
Proof. reflexivity. Qed.

(** C5.  [search_similar_documents], [get_document_count] and
    [list_documents] never raise: whatever exception their body raises (a
    model that cannot be loaded, an encoding or a store call that fails) is
    turned into the empty list, 0 and the empty list; and the search returns
    the empty list when the answer of the store has no documents, no
    distances or no metadatas. *)
Theorem reads_never_raise
        (w : world) (config : RAGConfig) (query : str) (n_results : option Z)
        (s : state) :
  (exists hits,
      fst (VectorStore.search_similar_documents w config query n_results s)
      = Ok hits
      /\ (forall e,
            fst (VectorStore.search_body w config query n_results s) = Raise e ->
            hits = [])
      /\ (forall e, encode w [query] = Raise e -> hits = []))
  /\ (forall results,
        q_documents results = None \/ q_documents results = Some []
        \/ q_distances results = None \/ q_distances results = Some []
        \/ q_metadatas results = None \/ q_metadatas results = Some [] ->
        VectorStore.hits_of results = [])
  /\ (exists n,
        fst (VectorStore.get_document_count w s) = Ok n
        /\ (forall e, fst (Chroma.count w s) = Raise e -> n = 0)
        /\ (forall e, store_fault w (trace s ++ [CollectionCount]) = Some e ->
                      n = 0))
  /\ (exists l,
        fst (RAGSystem.list_documents w s) = Ok l
        /\ (forall e, fst (RAGSystem.list_body w s) = Raise e -> l = [])
        /\ (forall e, store_fault w (trace s ++ [CollectionGet None]) = Some e ->
                      l = [])).
Proof.
  split; [|split; [|split]].
  - assert (Henc : forall e, encode w [query] = Raise e ->
              exists e', fst (VectorStore.search_body w config query n_results s)
                         = Raise e').
    { intros e He. unfold VectorStore.search_body, bind.
      destruct (VectorStore._ensure_model w config s) as [[u|e'] s1];
        [|now exists e'].
      unfold VectorStore.model_encode, bind, emit, lift. rewrite He.
      now exists e. }
    unfold VectorStore.search_similar_documents, try_except.
    destruct (VectorStore.search_body w config query n_results s)
      as [[hits|e] s'].
    + exists hits. split; [reflexivity|]. split; [discriminate|].
      intros e He. destruct (Henc e He) as [e' He']. discriminate He'.
    + exists []. repeat split; reflexivity.
  - intros results H. unfold VectorStore.hits_of.
    destruct (q_documents results) as [[|docs0 ?]|]; try reflexivity.
    destruct (q_distances results) as [[|dists0 ?]|]; try reflexivity.
    destruct (q_metadatas results) as [[|metas0 ?]|]; try reflexivity.
    exfalso. repeat (destruct H as [H|H]; [discriminate H|]). discriminate H.
  - assert (Hf : forall e, store_fault w (trace s ++ [CollectionCount]) = Some e ->
              fst (Chroma.count w s) = Raise e).
    { intros e He. unfold Chroma.count, Chroma.call, bind, emit. cbn.
      now rewrite He. }
    unfold VectorStore.get_document_count, try_except.
    destruct (Chroma.count w s) as [[n|e] s'].
    + exists n. split; [reflexivity|]. split; [discriminate|].
      intros e He. specialize (Hf e He). discriminate Hf.
    + exists 0. repeat split; reflexivity.
  - assert (Hf : forall e, store_fault w (trace s ++ [CollectionGet None]) = Some e ->
              fst (RAGSystem.list_body w s) = Raise e).
    { intros e He. unfold RAGSystem.list_body, bind. rewrite chroma_get_run.
      cbv zeta. now rewrite He. }
    unfold RAGSystem.list_documents, try_except.
    destruct (RAGSystem.list_body w s) as [[l|e] s'].
    + exists l. split; [reflexivity|]. split; [discriminate|].
      intros e He. specialize (Hf e He). discriminate Hf.
    + exists []. repeat split; reflexivity.
Qed.

(* ------------------------------------------------------------------ *)
(** ** The retrieved context *)

Lemma join_app sep l1 l2 :
  l1 <> [] -> l2 <> [] ->
  join sep (l1 ++ l2) = join sep l1 ++ sep ++ join sep l2.
Proof.
  intros H1 H2. induction l1 as [|a l1 IH]; [contradiction|].
  destruct l1 as [|b l1].
  - simpl. destruct l2; [contradiction|reflexivity].
  - change ((a :: b :: l1) ++ l2) with (a :: (b :: l1) ++ l2).
    cbn [app]. rewrite !join_cons.
    change (b :: l1 ++ l2) with ((b :: l1) ++ l2).
    rewrite IH by discriminate. now rewrite <- !app_assoc.
Qed.

Lemma join_flat_map {A} sep (f : A -> list str) xs :
  (forall x, f x <> []) ->
  join sep (flat_map f xs) = join sep (map (fun x => join sep (f x)) xs).
Proof.
  intros Hf. induction xs as [|x xs IH]; [reflexivity|].
  destruct xs as [|y xs].
  - simpl. now rewrite app_nil_r.
  - cbn [flat_map map]. rewrite join_app.
    + cbn [flat_map map] in IH. rewrite IH. reflexivity.
    + apply Hf.
    + specialize (Hf y). destruct (f y); [contradiction|discriminate].
Qed.

Lemma fold_append_hit hits : forall acc,
  fold_left RAGSystem.append_hit hits acc = acc ++ flat_map hit_lines hits.
Proof.
  induction hits as [|[[doc distance] metadata] hits IH]; intros acc.
  - simpl. now rewrite app_nil_r.
  - cbn [fold_left flat_map]. rewrite IH. unfold RAGSystem.append_hit, hit_lines.
    now rewrite <- !app_assoc.
Qed.

(** The lines appended hit by hit, joined, are the blocks of the hits,
    joined. *)
Lemma context_blocks hits :
  join RAGSystem.nl (fold_left RAGSystem.append_hit hits [])
  = RAGSystem.context_of hits.
Proof.
  rewrite fold_append_hit. cbn [app]. rewrite join_flat_map.
  - unfold RAGSystem.context_of. f_equal. apply map_ext.
    now intros [[doc distance] metadata].
  - now intros [[doc distance] metadata].
Qed.



(** What a search returns: nothing, or the normalised answer of the store to
    a query for [n_results or search_results] neighbours. *)
Lemma search_run w config query n_results s :
  exists hits s',
    VectorStore.search_similar_documents w config query n_results s
    = (Ok hits, s')
    /\ (hits = []
        \/ exists rows q,
            hits = VectorStore.hits_of
                     (query_answer w rows q
                        (VectorStore.n_results_or config n_results))).
Proof.
  unfold VectorStore.search_similar_documents, VectorStore.search_body,
    try_except, bind.
  destruct (VectorStore._ensure_model w config s) as [[u|e] s1];
    [|eexists _, _; split; [reflexivity|now left]].
  destruct (VectorStore.model_encode w [query] s1) as [[emb|e] s2];
    [|eexists _, _; split; [reflexivity|now left]].
  destruct emb as [rows|items]; cbn [VectorStore.tolist ret raise];
    [|eexists _, _; split; [reflexivity|now left]].
  unfold Chroma.query, Chroma.call, bind, emit, get_rows, ret. cbn.
  destruct (store_fault w _);
    eexists _, _; (split; [reflexivity|]); [now left|].
  right. eexists _, _. reflexivity.
Qed.









(* ------------------------------------------------------------------ *)
(** ** Ingest, then delete *)





Lemma filter_every {A} (f : A -> bool) l :
  (forall x, In x l -> f x = true) -> filter f l = l.
Proof.
  induction l as [|a l IH]; intros H; [reflexivity|]. simpl.
  rewrite (H a) by now left. f_equal. apply IH. intros x Hx. apply H. now right.
Qed.


Lemma chroma_delete_run w ids s :
  Chroma.delete w ids s
  = let logged := {| collection := collection s;
                     model_loaded := model_loaded s;
                     trace := trace s ++ [CollectionDelete ids] |} in
    match store_fault w (trace s ++ [CollectionDelete ids]) with
    | Some e => (Raise e, logged)
    | None =>
        (Ok tt,
         {| collection :=
              filter (fun r => negb (existsb (eqb (row_id r)) ids)) (collection s);
            model_loaded := model_loaded s;
            trace := trace s ++ [CollectionDelete ids] |})
    end.
Proof.
  unfold Chroma.delete, Chroma.call, bind, emit, get_rows, set_rows. cbn.
  now destruct (store_fault w (trace s ++ [CollectionDelete ids])).
Qed.



Lemma for_each_group_none ms : forall documents s,
  In None ms ->
  exists e, for_each RAGSystem.group_step ms documents s = (Raise e, s).
Proof.
  induction ms as [|[m|] ms IH]; intros documents s Hin; [destruct Hin| |].
  - destruct Hin as [E|Hin]; [discriminate|].
    cbn [for_each]. unfold bind. rewrite group_step_run. now apply IH.
  - eexists. reflexivity.
Qed.






(* ------------------------------------------------------------------ *)
(** ** The statements at work *)


Lemma add_document_consistent_batch_witness :
  (exists e,
      fst (VectorStore.add_document mismatch_world demo_config (lit "A")
             demo_path None empty_state) = Raise e)
  /\ adds (new_events empty_state
             (snd (VectorStore.add_document mismatch_world demo_config (lit "A")
                     demo_path None empty_state))) = []
  /\ collection (snd (VectorStore.add_document mismatch_world demo_config
                        (lit "A") demo_path None empty_state))
     = collection empty_state.
Proof.
  apply (proj2 (add_document_consistent_batch mismatch_world demo_config
                  (lit "A") demo_path None empty_state)
               demo_text
               (snd (extract_text_from_pdf mismatch_world (processor demo_config)
                       demo_path empty_state))
               (NdArray [[0.5%float]; [0.25%float]])).
  - vm_compute. reflexivity.
  - reflexivity.
  - vm_compute. discriminate.
Defined.

Lemma ingest_rejects_before_storing_witness :
  rejected_unstored empty_state
    (RAGSystem.add_pdf_document mute_world demo_config (lit "A") demo_path None
       empty_state)
    (ValueError (lit "Embedding model returned no vectors for chunks")).
Proof.
  destruct (ingest_rejects_before_storing mute_world demo_config (lit "A")
              demo_path None empty_state) as (_ & H & _).
  destruct (H demo_text ltac:(vm_compute; reflexivity)
              ltac:(vm_compute; reflexivity)) as (_ & _ & Hzero).
  apply (Hzero (NdArray [])).
  - vm_compute. discriminate.
  - vm_compute. discriminate.
  - reflexivity.
  - reflexivity.
  - reflexivity.
Defined.

Lemma reads_never_raise_witness :
  fst (VectorStore.search_similar_documents faulty_world demo_config (lit "fox")
         None one_row_state) = Ok []
  /\ fst (VectorStore.get_document_count faulty_world one_row_state) = Ok 0
  /\ fst (RAGSystem.list_documents faulty_world one_row_state) = Ok [].
Proof.
  destruct (reads_never_raise faulty_world demo_config (lit "fox") None
              one_row_state)
    as ((hits & Eh & Hh & _) & _ & (n & En & _ & Hn) & (l & El & _ & Hl)).
  rewrite Eh, En, El.
  rewrite (Hh (LibraryError (lit "disk I/O error")) ltac:(vm_compute; reflexivity)).
  rewrite (Hn (LibraryError (lit "disk I/O error")) eq_refl).
  rewrite (Hl (LibraryError (lit "disk I/O error")) eq_refl).
  repeat split.
Defined.

Lemma add_document_metadata_witness :
  coerce_meta
    (VectorStore.base_raw_of (lit "A") demo_path
       (Some [(PStr (lit "source"), PStr (lit "report"))]))
  = [(lit "source", lit "report")]
  /\ dict_get (lit "document_id")
       (coerce_meta
          (VectorStore.base_raw_of (lit "A") demo_path
             (Some [(PStr (lit "source"), PStr (lit "report"))])))
     = None.
Proof.
  destruct (add_document_metadata demo_world demo_config (lit "A") demo_path
              (Some [(PStr (lit "source"), PStr (lit "report"))]) empty_state)
    as (_ & H & _).
  destruct (H _ _ eq_refl) as [E Hkeys]. split.
  - rewrite E. reflexivity.
  - apply Hkeys. intros kv' [<-|[]]. vm_compute. discriminate.
Defined.


(* ------------------------------------------------------------------ *)
(** * Further properties of the chunker *)

Lemma loop_body_long dp st w :
  Forall (fun c => 20 <= len c) (chunks st) ->
  Forall (fun c => 20 <= len c) (chunks (loop_body dp st w)).
Proof.
  intros H. unfold loop_body.
  destruct (len (current_chunk st ++ [w]) >=? chunk_size dp); [|exact H].
  cbn [chunks].
  destruct (Z.geb_spec (len (strip (join (lit " ") (current_chunk st ++ [w]))))
              (min_chunk_len dp)) as [Hge|_]; [|exact H].
  apply Forall_app. split; [exact H|]. constructor; [|constructor].
  unfold min_chunk_len in Hge. lia.
Qed.

Lemma loop_long dp words : forall st,
  Forall (fun c => 20 <= len c) (chunks st) ->
  Forall (fun c => 20 <= len c) (chunks (fold_left (loop_body dp) words st)).
Proof.
  induction words as [|w words IH]; intros st H; [exact H|].
  simpl. apply IH. now apply loop_body_long.
Qed.

Lemma flush_long st :
  Forall (fun c => 20 <= len c) (chunks st) ->
  Forall (fun c => 20 <= len c) (flush st).
Proof.
  intros H. unfold flush. destruct (truthy (current_chunk st)); [|exact H].
  destruct (Z.geb_spec (len (strip (join (lit " ") (current_chunk st)))) 20);
    [|exact H].
  apply Forall_app. split; [exact H|]. constructor; [lia|constructor].
Qed.

(** Every chunk of the result is the text of a run of consecutive words of
    [text.split()]. *)
Lemma chunk_runs dp text c :
  In c (split_text_into_chunks dp text) ->
  exists i n,
    (i + n <= length (split text))%nat
    /\ c = strip (join (lit " ") (firstn n (skipn i (split text)))).
Proof.
  rewrite split_text_into_chunks_loop.
  change chunker_init with (tr_state traced_init).
  rewrite <- (traced_erase dp (split text) traced_init).
  assert (H0 : start_inv [] traced_init).
  { constructor; try reflexivity; try (simpl; lia); intros i c' []. }
  pose proof (start_inv_loop dp (split text) [] traced_init H0) as H.
  cbn [app] in H. destruct H as [Hcur Hstart Hlen Hchunks].
  set (t := fold_left (traced_body dp) (split text) traced_init) in *.
  assert (Hint : In c (chunks (tr_state t)) ->
                 exists i n,
                   (i + n <= length (split text))%nat
                   /\ c = strip (join (lit " ") (firstn n (skipn i (split text))))).
  { intros Hin. rewrite <- (map_snd_combine _ _ Hlen) in Hin.
    apply in_map_iff in Hin. destruct Hin as ([i c'] & E & Hin).
    cbn in E. subst c'. destruct (Hchunks i c Hin) as (n & Hn & Ec).
    now exists i, n. }
  unfold flush. destruct (truthy (current_chunk (tr_state t))); [|exact Hint].
  destruct (len (strip (join (lit " ") (current_chunk (tr_state t)))) >=? 20);
    [|exact Hint].
  intros Hin. apply in_app_or in Hin. destruct Hin as [Hin|[<-|[]]];
    [now apply Hint|].
  exists (tr_start t), (length (split text) - tr_start t)%nat.
  split; [lia|]. rewrite Hcur. f_equal. f_equal.
  rewrite firstn_all2; [reflexivity|]. rewrite length_skipn. lia.
Qed.

Lemma chunks_all_long dp text :
  Forall (fun c => 20 <= len c) (split_text_into_chunks dp text).
Proof.
  rewrite split_text_into_chunks_loop. apply flush_long, loop_long.
  constructor.
Qed.

Lemma run_words n i (ws : list str) :
  Forall word_ok ws -> Forall word_ok (firstn n (skipn i ws)).
Proof.
  intros H. pose proof (Forall_skipn_words word_ok i ws H) as Hs.
  rewrite <- (firstn_skipn n (skipn i ws)) in Hs. now apply Forall_app in Hs.
Qed.

(** X1.  Whatever the parameters, every chunk that [split_text_into_chunks]
    returns has at least 20 characters, neither starts nor ends with
    whitespace, and is its own words joined by single spaces. *)
Theorem chunks_long_and_normalised
        (dp : DocumentProcessor) (text c : str) :
  In c (split_text_into_chunks dp text) ->
  20 <= len c /\ strip c = c /\ c = join (lit " ") (split c).
Proof.
  intros Hin.
  pose proof (chunks_all_long dp text) as Hlong.
  rewrite Forall_forall in Hlong. specialize (Hlong c Hin).
  destruct (chunk_runs dp text c Hin) as (i & n & _ & Ec).
  assert (Hrun : Forall word_ok (firstn n (skipn i (split text))))
    by apply run_words, split_words.
  rewrite strip_join in Ec by assumption.
  split; [exact Hlong|]. subst c. split.
  - now apply strip_join.
  - now rewrite split_join.
Qed.

Lemma chunks_long_and_normalised_witness :
  20 <= len (lit "delta3 echo4 foxtrot5 golf6 hotel7")
  /\ strip (lit "delta3 echo4 foxtrot5 golf6 hotel7")
     = lit "delta3 echo4 foxtrot5 golf6 hotel7"
  /\ lit "delta3 echo4 foxtrot5 golf6 hotel7"
     = join (lit " ") (split (lit "delta3 echo4 foxtrot5 golf6 hotel7")).
Proof.
  apply (chunks_long_and_normalised dp52 text12).
  vm_compute. right. left. reflexivity.
Defined.

(** X2.  Whatever the parameters, the words of every chunk are a non-empty run of
    consecutive words of the text: the chunker neither invents, drops inside
    a chunk, nor reorders words. *)
Theorem chunks_are_word_runs (dp : DocumentProcessor) (text c : str) :
  In c (split_text_into_chunks dp text) ->
  exists i n,
    (0 < n)%nat
    /\ (i + n <= length (split text))%nat
    /\ split c = firstn n (skipn i (split text)).
Proof.
  intros Hin.
  pose proof (chunks_all_long dp text) as Hlong.
  rewrite Forall_forall in Hlong. specialize (Hlong c Hin).
  destruct (chunk_runs dp text c Hin) as (i & n & Hn & Ec).
  assert (Hrun : Forall word_ok (firstn n (skipn i (split text))))
    by apply run_words, split_words.
  rewrite strip_join in Ec by assumption.
  exists i, n. split; [|split; [exact Hn|]].
  - destruct n as [|n]; [|lia]. subst c. cbn in Hlong. unfold len in Hlong.
    simpl in Hlong. lia.
  - subst c. now apply split_join.
Qed.

Lemma chunks_are_word_runs_witness :
  exists i n,
    (0 < n)%nat
    /\ (i + n <= length (split text12))%nat
    /\ split (lit "delta3 echo4 foxtrot5 golf6 hotel7")
       = firstn n (skipn i (split text12)).
Proof.
  apply (chunks_are_word_runs dp52 text12).
  vm_compute. right. left. reflexivity.
Defined.

Lemma loop_short dp words : forall st,
  len (current_chunk st) + len words < chunk_size dp ->
  fold_left (loop_body dp) words st
  = {| current_chunk := current_chunk st ++ words; chunks := chunks st |}.
Proof.
  unfold len. induction words as [|w words IH]; intros st H.
  - simpl. rewrite app_nil_r. now destruct st.
  - cbn [fold_left]. unfold loop_body at 2.
    destruct (Z.geb_spec (len (current_chunk st ++ [w])) (chunk_size dp))
      as [Hge|_].
    + unfold len in Hge. rewrite length_app in Hge. simpl in *. lia.
    + rewrite IH; cbn [current_chunk chunks].
      * now rewrite <- app_assoc.
      * rewrite length_app. simpl in *. lia.
Qed.

(** X3.  A text of fewer than [chunk_size] words gives at most one chunk: its
    words joined by single spaces when that has at least 20 characters,
    nothing otherwise. *)
Theorem short_text_one_chunk (dp : DocumentProcessor) (text : str) :
  len (split text) < chunk_size dp ->
  split_text_into_chunks dp text
  = if len (join (lit " ") (split text)) >=? 20
    then [join (lit " ") (split text)] else [].
Proof.
  intros Hshort. rewrite split_text_into_chunks_loop.
  rewrite loop_short by (cbn; lia). cbn [current_chunk chunks chunker_init app].
  unfold flush. cbn [current_chunk chunks].
  destruct (split text) as [|w ws] eqn:E; [reflexivity|].
  cbn [truthy]. rewrite strip_join by (rewrite <- E; apply split_words).
  reflexivity.
Qed.

Lemma short_text_one_chunk_witness :
  split_text_into_chunks (processor demo_config) demo_text
  = [lit "The quick brown fox jumps over the lazy dog near the river bank"].
Proof.
  rewrite (short_text_one_chunk (processor demo_config) demo_text);
    vm_compute; reflexivity.
Defined.





(* ------------------------------------------------------------------ *)
(** * Further properties of the text extraction *)

Lemma ocr_fallback_text w self pdf_path s text :
  fst (ocr_fallback w self pdf_path s) = Ok text ->
  text = [] \/ strip text <> [].
Proof.
  unfold ocr_fallback, try_except, bind, emit, lift.
  destruct (pdf2image_installed w); cbn [negb ret fst]; [|intros E; inversion E; now left].
  destruct (pytesseract_installed w); cbn [negb ret fst]; [|intros E; inversion E; now left].
  destruct (convert_from_path w pdf_path (ocr_dpi self) _) as [images|e];
    [|discriminate].
  match goal with
  | |- context [for_each ?b ?xs ?a ?st] =>
      destruct (for_each b xs a st) as [[ocr_text|e] s2]
  end; [|discriminate].
  rewrite has_text_strip.
  destruct (strip ocr_text) as [|c t] eqn:E; cbn [truthy ret fst];
    intros H; inversion H; subst; [now left|right].
  rewrite E. discriminate.
Qed.

(** X6.  What [extract_text_from_pdf] returns is never blank: it is the empty
    string or a text with a character that is no whitespace; and it is the
    empty string only after the OCR fallback has been attempted. *)
Theorem extracted_text_never_blank
        (w : world) (self : DocumentProcessor) (pdf_path : str) (s : state)
        (text : str) :
  fst (extract_text_from_pdf w self pdf_path s) = Ok text ->
  (text = [] \/ strip text <> [])
  /\ (text = [] ->
      ocr_attempted s (snd (extract_text_from_pdf w self pdf_path s))).
Proof.
  unfold extract_text_from_pdf, primary_extract, try_except, bind, lift.
  destruct (pdf_pages w pdf_path) as [pages|e]; [|discriminate].
  rewrite has_text_strip.
  destruct (strip (page_text pages)) as [|c t] eqn:E; cbn [truthy ret].
  - intros H. split; [now apply (ocr_fallback_text w self pdf_path s)|].
    intros _. apply ocr_fallback_attempted.
  - cbn [fst]. intros H. inversion H; subst text. split.
    + right. rewrite E. discriminate.
    + intros E'. rewrite E' in E. discriminate E.
Qed.

Lemma extracted_text_never_blank_witness :
  (@nil char = [] \/ strip (@nil char) <> [])
  /\ (@nil char = [] ->
      ocr_attempted empty_state
        (snd (extract_text_from_pdf scanned_world dp52 demo_path empty_state))).
Proof.
  apply (extracted_text_never_blank scanned_world dp52 demo_path empty_state).
  reflexivity.
Defined.

Lemma ocr_images_run w images : forall texts acc s,
  map (image_to_string w) images = map Ok texts ->
  for_each
    (fun ocr_text img =>
       emit (ImageToString img) ;;;
       t <- lift (image_to_string w img) ;;
       ret (ocr_text ++ or_empty t))%monad
    images acc s
  = (Ok (fold_left (fun text page => text ++ or_empty page) texts acc),
     {| collection := collection s;
        model_loaded := model_loaded s;
        trace := trace s ++ map ImageToString images |}).
Proof.
  induction images as [|img images IH]; intros texts acc s H.
  - destruct texts; [|discriminate]. simpl. rewrite app_nil_r.
    now destruct s.
  - destruct texts as [|t texts]; [discriminate|].
    cbn [map] in H. inversion H as [[Himg Hrest]].
    cbn [for_each]. unfold bind at 1. unfold bind at 1. unfold emit at 1.
    unfold bind at 1. unfold lift at 1. rewrite Himg. cbn [ret].
    rewrite (IH texts) by assumption. cbn [collection model_loaded trace
                                            fold_left map].
    now rewrite <- app_assoc.
Qed.

(** X7.  The OCR path.  When the text layer is blank, both OCR libraries are
    installed, the pages are rasterized at [ocr_dpi] (with the poppler path
    of the environment when there is one) and every image is recognized, the
    call returns the recognized texts concatenated in page order, or the
    empty string when that is blank; the libraries are called in this
    order: the two imports, one conversion, one recognition per image. *)
Theorem ocr_fallback_recognizes
        (w : world) (self : DocumentProcessor) (pdf_path : str) (s : state)
        (pages : list (option str)) (images : list image)
        (texts : list (option str)) :
  pdf_pages w pdf_path = Ok pages ->
  strip (page_text pages) = [] ->
  pdf2image_installed w = true ->
  pytesseract_installed w = true ->
  convert_from_path w pdf_path (ocr_dpi self) (poppler_arg w) = Ok images ->
  map (image_to_string w) images = map Ok texts ->
  extract_text_from_pdf w self pdf_path s
  = (Ok (if truthy (strip (page_text texts)) then page_text texts else []),
     {| collection := collection s;
        model_loaded := model_loaded s;
        trace := trace s
                 ++ [ImportPdf2image; ImportPytesseract;
                     ConvertFromPath pdf_path (ocr_dpi self) (poppler_arg w)]
                 ++ map ImageToString images |}).
Proof.
  intros Hp Hblank H1 H2 Hconv Himgs.
  unfold extract_text_from_pdf, primary_extract, try_except, bind at 1.
  unfold bind at 1, lift at 1. rewrite Hp, has_text_strip, Hblank.
  cbn [truthy ret]. unfold ocr_fallback, try_except.
  unfold bind at 1, emit at 1. rewrite H1. cbn [negb].
  unfold bind at 1, emit at 1. rewrite H2. cbn [negb].
  unfold bind at 1, emit at 1. cbn [collection model_loaded trace].
  fold (poppler_arg w). unfold bind at 1, lift at 1. rewrite Hconv.
  unfold bind at 1. rewrite (ocr_images_run w images texts) by assumption.
  fold (page_text texts). rewrite has_text_strip.
  cbn [collection model_loaded trace].
  destruct (truthy (strip (page_text texts))); cbn [ret];
    now rewrite <- !app_assoc.
Qed.

Lemma ocr_fallback_recognizes_witness :
  extract_text_from_pdf ocr_world dp52 demo_path empty_state
  = (Ok (lit "Scanned words of the first page "),
     {| collection := [];
        model_loaded := false;
        trace := [ImportPdf2image; ImportPytesseract;
                  ConvertFromPath demo_path 200 (Some (lit "/opt/poppler/bin"));
                  ImageToString 1%N; ImageToString 2%N] |}).
Proof.
  apply (ocr_fallback_recognizes ocr_world dp52 demo_path empty_state
           [Some (lit "   "); None] [1%N; 2%N]
           [Some (lit "Scanned words of the first page "); None]);
    reflexivity.
Defined.

Lemma ocr_images_fail w images1 : forall texts img images2 e acc s,
  map (image_to_string w) images1 = map Ok texts ->
  image_to_string w img = Raise e ->
  for_each
    (fun ocr_text img =>
       emit (ImageToString img) ;;;
       t <- lift (image_to_string w img) ;;
       ret (ocr_text ++ or_empty t))%monad
    (images1 ++ img :: images2) acc s
  = (Raise e,
     {| collection := collection s;
        model_loaded := model_loaded s;
        trace := trace s ++ map ImageToString images1 ++ [ImageToString img] |}).
Proof.
  induction images1 as [|i1 images1 IH]; intros texts img images2 e acc s H He.
  - cbn [app for_each map]. unfold bind at 1. unfold bind at 1.
    unfold emit at 1. unfold bind at 1. unfold lift at 1. rewrite He.
    reflexivity.
  - destruct texts as [|t texts]; [discriminate|].
    cbn [map] in H. inversion H as [[Himg Hrest]].
    cbn [app for_each]. unfold bind at 1. unfold bind at 1. unfold emit at 1.
    unfold bind at 1. unfold lift at 1. rewrite Himg. cbn [ret].
    rewrite (IH texts img images2 e) by assumption.
    cbn [collection model_loaded trace map]. now rewrite <- app_assoc.
Qed.

(** X8.  Once the OCR libraries are imported, their failures are not swallowed:
    an exception of the rasterization, or of the recognition of a page, is
    the exception of the call, and no later page is recognized. *)
Theorem ocr_errors_propagate
        (w : world) (self : DocumentProcessor) (pdf_path : str) (s : state)
        (pages : list (option str)) :
  pdf_pages w pdf_path = Ok pages ->
  strip (page_text pages) = [] ->
  pdf2image_installed w = true ->
  pytesseract_installed w = true ->
  (forall e,
      convert_from_path w pdf_path (ocr_dpi self) (poppler_arg w) = Raise e ->
      extract_text_from_pdf w self pdf_path s
      = (Raise e,
         {| collection := collection s;
            model_loaded := model_loaded s;
            trace := trace s
                     ++ [ImportPdf2image; ImportPytesseract;
                         ConvertFromPath pdf_path (ocr_dpi self) (poppler_arg w)] |}))
  /\ (forall images1 img images2 texts e,
        convert_from_path w pdf_path (ocr_dpi self) (poppler_arg w)
        = Ok (images1 ++ img :: images2) ->
        map (image_to_string w) images1 = map Ok texts ->
        image_to_string w img = Raise e ->
        extract_text_from_pdf w self pdf_path s
        = (Raise e,
           {| collection := collection s;
              model_loaded := model_loaded s;
              trace := trace s
                       ++ [ImportPdf2image; ImportPytesseract;
                           ConvertFromPath pdf_path (ocr_dpi self) (poppler_arg w)]
                       ++ map ImageToString images1 ++ [ImageToString img] |})).
Proof.
  intros Hp Hblank H1 H2.
  split.
  - intros e Hconv.
    unfold extract_text_from_pdf, primary_extract, try_except, bind at 1.
    unfold bind at 1, lift at 1. rewrite Hp, has_text_strip, Hblank.
    cbn [truthy ret]. unfold ocr_fallback, try_except.
    unfold bind at 1, emit at 1. rewrite H1. cbn [negb].
    unfold bind at 1, emit at 1. rewrite H2. cbn [negb].
    unfold bind at 1, emit at 1. cbn [collection model_loaded trace].
    fold (poppler_arg w). unfold bind at 1, lift at 1. rewrite Hconv.
    cbn [raise]. now rewrite <- !app_assoc.
  - intros images1 img images2 texts e Hconv Himgs He.
    unfold extract_text_from_pdf, primary_extract, try_except, bind at 1.
    unfold bind at 1, lift at 1. rewrite Hp, has_text_strip, Hblank.
    cbn [truthy ret]. unfold ocr_fallback, try_except.
    unfold bind at 1, emit at 1. rewrite H1. cbn [negb].
    unfold bind at 1, emit at 1. rewrite H2. cbn [negb].
    unfold bind at 1, emit at 1. cbn [collection model_loaded trace].
    fold (poppler_arg w). unfold bind at 1, lift at 1. rewrite Hconv.
    unfold bind at 1.
    rewrite (ocr_images_fail w images1 texts img images2 e) by assumption.
    cbn [raise collection model_loaded trace]. now rewrite <- !app_assoc.
Qed.

Lemma ocr_errors_propagate_witness :
  extract_text_from_pdf broken_ocr_world dp52 demo_path empty_state
  = (Raise (LibraryError (lit "tesseract is not installed")),
     {| collection := [];
        model_loaded := false;
        trace := [ImportPdf2image; ImportPytesseract;
                  ConvertFromPath demo_path 200 None;
                  ImageToString 1%N; ImageToString 2%N] |}).
Proof.
  apply (proj2 (ocr_errors_propagate broken_ocr_world dp52 demo_path empty_state
                  [Some (lit "   "); None] eq_refl eq_refl eq_refl eq_refl)
               [1%N] 2%N [3%N]
               [Some (lit "Scanned words of the first page ")]);
    reflexivity.
Defined.

Lemma extract_without_ocr w self pdf_path s pages :
  pdf_pages w pdf_path = Ok pages ->
  strip (page_text pages) = [] ->
  pdf2image_installed w = false \/ pytesseract_installed w = false ->
  exists evs,
    extract_text_from_pdf w self pdf_path s
    = (Ok [], {| collection := collection s;
                 model_loaded := model_loaded s;
                 trace := trace s ++ evs |})
    /\ (evs = [ImportPdf2image] \/ evs = [ImportPdf2image; ImportPytesseract]).
Proof.
  intros Hp Hblank Hdeps.
  unfold extract_text_from_pdf, primary_extract, try_except, bind at 1.
  unfold bind at 1, lift at 1. rewrite Hp, has_text_strip, Hblank.
  cbn [truthy ret]. unfold ocr_fallback, try_except.
  unfold bind at 1, emit at 1.
  destruct (pdf2image_installed w); cbn [negb ret].
  - unfold bind at 1, emit at 1.
    destruct (pytesseract_installed w); cbn [negb ret];
      [destruct Hdeps; discriminate|].
    cbn [collection model_loaded trace].
    exists [ImportPdf2image; ImportPytesseract]. split; [|now right].
    now rewrite <- app_assoc.
  - exists [ImportPdf2image]. split; [reflexivity|now left].
Qed.

(** X9.  Ingesting a scanned PDF when an OCR library is missing raises
    [ValueError("No extractable text found in PDF")]: the rows are kept, and
    neither the embedding model nor the store is touched (the only calls are
    the attempted imports). *)
Theorem scanned_pdf_without_ocr_rejected
        (w : world) (config : RAGConfig) (document_id pdf_path : str)
        (metadata : option raw_meta) (s : state) (pages : list (option str)) :
  path_exists w pdf_path = true ->
  pdf_pages w pdf_path = Ok pages ->
  strip (page_text pages) = [] ->
  pdf2image_installed w = false \/ pytesseract_installed w = false ->
  exists evs,
    RAGSystem.add_pdf_document w config document_id pdf_path metadata s
    = (Raise (ValueError (lit "No extractable text found in PDF")),
       {| collection := collection s;
          model_loaded := model_loaded s;
          trace := trace s ++ evs |})
    /\ (evs = [ImportPdf2image] \/ evs = [ImportPdf2image; ImportPytesseract]).
Proof.
  intros Hpath Hp Hblank Hdeps.
  destruct (extract_without_ocr w (processor config) pdf_path s pages
              Hp Hblank Hdeps) as (evs & Ex & Hevs).
  exists evs. split; [|exact Hevs].
  unfold RAGSystem.add_pdf_document. rewrite Hpath. cbn [negb].
  rewrite add_document_run, Ex. reflexivity.
Qed.

Lemma scanned_pdf_without_ocr_rejected_witness :
  exists evs,
    RAGSystem.add_pdf_document scanned_world demo_config (lit "A") demo_path
                               None empty_state
    = (Raise (ValueError (lit "No extractable text found in PDF")),
       {| collection := []; model_loaded := false; trace := [] ++ evs |})
    /\ (evs = [ImportPdf2image] \/ evs = [ImportPdf2image; ImportPytesseract]).
Proof.
  apply (scanned_pdf_without_ocr_rejected scanned_world demo_config (lit "A")
           demo_path None empty_state [Some (lit "   "); None]);
    try reflexivity.
  now left.
Defined.

(* ------------------------------------------------------------------ *)
(** * The lazily loaded model *)

Lemma stays_ret {A} (a : A) : stays_loaded (ret a).
Proof. intros s H. split; [exact H|]. exists []. now rewrite app_nil_r. Qed.

Lemma stays_raise {A} e : stays_loaded (@raise A e).
Proof. intros s H. split; [exact H|]. exists []. now rewrite app_nil_r. Qed.

Lemma stays_lift {A} (r : result A) : stays_loaded (lift r).
Proof. intros s H. split; [exact H|]. exists []. now rewrite app_nil_r. Qed.

Lemma stays_get_rows : stays_loaded get_rows.
Proof. intros s H. split; [exact H|]. exists []. now rewrite app_nil_r. Qed.

Lemma stays_set_rows rows : stays_loaded (set_rows rows).
Proof. intros s H. split; [exact H|]. exists []. now rewrite app_nil_r. Qed.

Lemma stays_emit ev : not_load ev -> stays_loaded (emit ev).
Proof.
  intros Hev s H. split; [exact H|]. exists [ev]. split; [reflexivity|].
  now constructor.
Qed.

Lemma stays_bind {A B} (m : M A) (f : A -> M B) :
  stays_loaded m -> (forall a, stays_loaded (f a)) -> stays_loaded (bind m f).
Proof.
  intros Hm Hf s H. unfold bind. specialize (Hm s H).
  destruct (m s) as [[a|e] s1]; [|exact Hm]. cbn [snd] in Hm.
  destruct Hm as [H1 (evs1 & T1 & F1)].
  destruct (Hf a s1 H1) as [H2 (evs2 & T2 & F2)].
  split; [exact H2|]. exists (evs1 ++ evs2). split.
  - now rewrite T2, T1, app_assoc.
  - now apply Forall_app.
Qed.

Lemma stays_try {A} (m : M A) (h : exn -> M A) :
  stays_loaded m -> (forall e, stays_loaded (h e)) ->
  stays_loaded (try_except m h).
Proof.
  intros Hm Hh s H. unfold try_except. specialize (Hm s H).
  destruct (m s) as [[a|e] s1]; [exact Hm|]. cbn [snd] in Hm.
  destruct Hm as [H1 (evs1 & T1 & F1)].
  destruct (Hh e s1 H1) as [H2 (evs2 & T2 & F2)].
  split; [exact H2|]. exists (evs1 ++ evs2). split.
  - now rewrite T2, T1, app_assoc.
  - now apply Forall_app.
Qed.

Lemma stays_for_each {A B} (body : B -> A -> M B) xs :
  (forall acc x, stays_loaded (body acc x)) ->
  forall acc, stays_loaded (for_each body xs acc).
Proof.
  intros Hbody. induction xs as [|x xs IH]; intros acc; simpl.
  - apply stays_ret.
  - apply stays_bind; [apply Hbody|intros acc'; apply IH].
Qed.

Lemma stays_call w ev : not_load ev -> stays_loaded (Chroma.call w ev).
Proof.
  intros H. unfold Chroma.call. apply stays_bind; [now apply stays_emit|].
  intros _ s Hs. destruct (store_fault w (trace s));
    (split; [exact Hs|]; exists []; now rewrite app_nil_r).
Qed.

Lemma stays_ensure_model w config :
  stays_loaded (VectorStore._ensure_model w config).
Proof.
  intros s H. unfold VectorStore._ensure_model. rewrite H.
  split; [exact H|]. exists []. now rewrite app_nil_r.
Qed.

Lemma stays_extract w self pdf_path :
  stays_loaded (extract_text_from_pdf w self pdf_path).
Proof.
  unfold extract_text_from_pdf, primary_extract, ocr_fallback.
  apply stays_bind.
  - apply stays_try; [|intros e; apply stays_raise].
    apply stays_bind; [apply stays_lift|]. intros pages.
    destruct (truthy (page_text pages) && truthy (strip (page_text pages)));
      apply stays_ret.
  - intros [text|]; [apply stays_ret|].
    apply stays_try; [|intros e; apply stays_raise].
    apply stays_bind; [now apply stays_emit|]. intros _.
    destruct (pdf2image_installed w); cbn [negb]; [|apply stays_ret].
    apply stays_bind; [now apply stays_emit|]. intros _.
    destruct (pytesseract_installed w); cbn [negb]; [|apply stays_ret].
    apply stays_bind; [now apply stays_emit|]. intros _.
    apply stays_bind; [apply stays_lift|]. intros images.
    apply stays_bind.
    + apply stays_for_each. intros acc img.
      apply stays_bind; [now apply stays_emit|]. intros _.
      apply stays_bind; [apply stays_lift|]. intros t. apply stays_ret.
    + intros ocr_text.
      destruct (truthy ocr_text && truthy (strip ocr_text)); apply stays_ret.
Qed.

Lemma stays_add_document w config document_id pdf_path metadata :
  stays_loaded (VectorStore.add_document w config document_id pdf_path metadata).
Proof.
  unfold VectorStore.add_document.
  apply stays_try; [|intros e; apply stays_raise].
  apply stays_bind; [apply stays_extract|]. intros text.
  destruct (negb (truthy text) || negb (truthy (strip text)));
    [apply stays_raise|].
  destruct (negb (truthy (split_text_into_chunks (processor config) text)));
    [apply stays_raise|].
  apply stays_bind; [apply stays_ensure_model|]. intros _.
  apply stays_bind.
  { unfold VectorStore.model_encode.
    apply stays_bind; [now apply stays_emit|]. intros _. apply stays_lift. }
  intros embeddings.
  destruct (VectorStore.no_vectors embeddings); [apply stays_raise|].
  match goal with |- stays_loaded (if ?b then _ else _) => destruct b end;
    [apply stays_raise|].
  unfold Chroma.add. apply stays_bind; [now apply stays_call|]. intros _.
  apply stays_bind; [apply stays_get_rows|]. intros rows.
  apply stays_set_rows.
Qed.

Lemma stays_search w config query n_results :
  stays_loaded (VectorStore.search_similar_documents w config query n_results).
Proof.
  unfold VectorStore.search_similar_documents, VectorStore.search_body.
  apply stays_try; [|intros e; apply stays_ret].
  apply stays_bind; [apply stays_ensure_model|]. intros _.
  apply stays_bind.
  { unfold VectorStore.model_encode.
    apply stays_bind; [now apply stays_emit|]. intros _. apply stays_lift. }
  intros emb. apply stays_bind.
  { destruct emb; [apply stays_ret|apply stays_raise]. }
  intros q. apply stays_bind; [|intros results; apply stays_ret].
  unfold Chroma.query. apply stays_bind; [now apply stays_call|]. intros _.
  apply stays_bind; [apply stays_get_rows|]. intros rows. apply stays_ret.
Qed.

Lemma stays_delete w document_id :
  stays_loaded (VectorStore.delete_document w document_id).
Proof.
  unfold VectorStore.delete_document.
  apply stays_try; [|intros e; apply stays_raise].
  apply stays_bind.
  { unfold Chroma.get. apply stays_bind; [now apply stays_call|]. intros _.
    apply stays_bind; [apply stays_get_rows|]. intros rows. apply stays_ret. }
  intros results. destruct (truthy (g_ids results)); [|apply stays_ret].
  unfold Chroma.delete. apply stays_bind; [now apply stays_call|]. intros _.
  apply stays_bind; [apply stays_get_rows|]. intros rows. apply stays_set_rows.
Qed.

(** X10.  The model is loaded lazily and once.  A successful [_ensure_model]
    leaves the model loaded, a failed one leaves it unloaded (the next call
    tries again), and from a state where the model is loaded no method loads
    it again or unloads it: not [_ensure_model], [add_pdf_document],
    [search_similar_documents], [retrieve_relevant_context] nor
    [delete_document]. *)
Theorem model_loaded_once
        (w : world) (config : RAGConfig) (document_id pdf_path query : str)
        (metadata : option raw_meta) (n_results : option Z) (s : state) :
  (fst (VectorStore._ensure_model w config s) = Ok tt ->
   model_loaded (snd (VectorStore._ensure_model w config s)) = true)
  /\ (forall e, fst (VectorStore._ensure_model w config s) = Raise e ->
        model_loaded (snd (VectorStore._ensure_model w config s)) = false
        /\ trace (snd (VectorStore._ensure_model w config s))
           = trace s ++ [LoadModel (embedding_model config)])
  /\ (model_loaded s = true ->
      VectorStore._ensure_model w config s = (Ok tt, s))
  /\ stays_loaded
       (RAGSystem.add_pdf_document w config document_id pdf_path metadata)
  /\ stays_loaded
       (VectorStore.search_similar_documents w config query n_results)
  /\ stays_loaded
       (RAGSystem.retrieve_relevant_context w config query n_results)
  /\ stays_loaded (RAGSystem.delete_document w document_id).
Proof.
  split; [|split; [|split; [|split; [|split; [|split]]]]].
  - unfold VectorStore._ensure_model. destruct (model_loaded s) eqn:E;
      [now intros _|].
    destruct (load_model w (embedding_model config)); [discriminate|].
    reflexivity.
  - intros e. unfold VectorStore._ensure_model.
    destruct (model_loaded s) eqn:E; [discriminate|].
    destruct (load_model w (embedding_model config)); [|discriminate].
    intros _. split; reflexivity.
  - intros H. unfold VectorStore._ensure_model. now rewrite H.
  - unfold RAGSystem.add_pdf_document.
    destruct (negb (path_exists w pdf_path));
      [apply stays_raise|apply stays_add_document].
  - apply stays_search.
  - unfold RAGSystem.retrieve_relevant_context.
    apply stays_bind; [apply stays_search|]. intros hits.
    destruct (negb (truthy hits)); apply stays_ret.
  - apply stays_delete.
Qed.

Lemma model_loaded_once_witness :
  model_loaded
    (snd (VectorStore.search_similar_documents demo_world demo_config
            (lit "fox") None one_row_state)) = true
  /\ exists evs,
      trace (snd (VectorStore.search_similar_documents demo_world demo_config
                    (lit "fox") None one_row_state))
      = trace one_row_state ++ evs
      /\ Forall not_load evs.
Proof.
  destruct (model_loaded_once demo_world demo_config (lit "A") demo_path
              (lit "fox") None None one_row_state)
    as (_ & _ & _ & _ & H & _).
  exact (H one_row_state eq_refl).
Defined.

(* ------------------------------------------------------------------ *)
(** * Reading leaves the store alone *)

Lemma keeps_search w config query n_results :
  keeps no_write
        (VectorStore.search_similar_documents w config query n_results).
Proof.
  unfold VectorStore.search_similar_documents, VectorStore.search_body.
  apply keeps_try; [|intros e; apply keeps_ret].
  apply keeps_bind; [now apply keeps_ensure_model|]. intros _.
  apply keeps_bind; [now apply keeps_model_encode|]. intros emb.
  apply keeps_bind.
  { destruct emb; [apply keeps_ret|apply keeps_raise]. }
  intros q. apply keeps_bind; [|intros results; apply keeps_ret].
  unfold Chroma.query. apply keeps_bind; [now apply keeps_call|]. intros _.
  apply keeps_bind; [apply keeps_get_rows|]. intros rows. apply keeps_ret.
Qed.

Lemma keeps_group_step P documents metadata :
  keeps P (RAGSystem.group_step documents metadata).
Proof.
  unfold RAGSystem.group_step. destruct metadata as [m|]; [|apply keeps_raise].
  match goal with
  | |- keeps P (match ?x with Some _ => _ | None => _ end) => destruct x
  end; [apply keeps_ret|apply keeps_raise].
Qed.

(** X11.  The read operations never change the rows of the store and never call
    [collection.add] or [collection.delete]: [search_similar_documents],
    [retrieve_relevant_context], [get_document_count] and
    [list_documents]. *)
Theorem reads_leave_store
        (w : world) (config : RAGConfig) (query : str) (n_results : option Z)
        (s : state) :
  frame no_write s
        (snd (VectorStore.search_similar_documents w config query n_results s))
  /\ frame no_write s
           (snd (RAGSystem.retrieve_relevant_context w config query n_results s))
  /\ frame no_write s (snd (VectorStore.get_document_count w s))
  /\ frame no_write s (snd (RAGSystem.list_documents w s)).
Proof.
  split; [|split; [|split]].
  - apply keeps_search.
  - unfold RAGSystem.retrieve_relevant_context.
    apply keeps_bind; [apply keeps_search|]. intros hits.
    destruct (negb (truthy hits)); apply keeps_ret.
  - unfold VectorStore.get_document_count, Chroma.count.
    apply keeps_try; [|intros e; apply keeps_ret].
    apply keeps_bind; [now apply keeps_call|]. intros _.
    apply keeps_bind; [apply keeps_get_rows|]. intros rows. apply keeps_ret.
  - unfold RAGSystem.list_documents, RAGSystem.list_body, Chroma.get.
    apply keeps_try; [|intros e; apply keeps_ret].
    apply keeps_bind.
    { apply keeps_bind; [now apply keeps_call|]. intros _.
      apply keeps_bind; [apply keeps_get_rows|]. intros rows. apply keeps_ret. }
    intros results. destruct (g_metadatas results) as [ms|]; [|apply keeps_ret].
    apply keeps_bind; [|intros documents; apply keeps_ret].
    apply keeps_for_each. intros acc x. apply keeps_group_step.
Qed.

(* ------------------------------------------------------------------ *)
(** * The context string *)

Lemma block_nonempty h : RAGSystem.block h <> [].
Proof.
  destruct h as [[doc distance] metadata]. unfold RAGSystem.block.
  rewrite join_cons. cbn. discriminate.
Qed.

Lemma context_of_nonempty h hits : RAGSystem.context_of (h :: hits) <> [].
Proof.
  unfold RAGSystem.context_of. cbn [map].
  pose proof (block_nonempty h) as Hb.
  destruct (RAGSystem.block h) as [|c b] eqn:E; [contradiction|].
  destruct (map RAGSystem.block hits); [simpl; discriminate|].
  rewrite join_cons. cbn. discriminate.
Qed.

(** X12.  [retrieve_relevant_context] never raises, and its result is the empty
    string exactly when the search has no hit: a caller can test the context
    for emptiness to know whether anything was retrieved. *)
Theorem context_empty_iff_no_hits
        (w : world) (config : RAGConfig) (query : str) (n_results : option Z)
        (s : state) :
  exists hits context s',
    VectorStore.search_similar_documents w config query n_results s
    = (Ok hits, s')
    /\ RAGSystem.retrieve_relevant_context w config query n_results s
       = (Ok context, s')
    /\ (context = [] <-> hits = []).
Proof.
  destruct (search_run w config query n_results s) as (hits & s' & Es & _).
  exists hits, (RAGSystem.context_of hits), s'. split; [exact Es|]. split.
  - unfold RAGSystem.retrieve_relevant_context, bind. rewrite Es.
    destruct hits as [|h hits]; [reflexivity|]. cbn [truthy negb ret].
    now rewrite context_blocks.
  - destruct hits as [|h hits]; [split; reflexivity|].
    split; [|discriminate]. intros E. now apply context_of_nonempty in E.
Qed.

(* ------------------------------------------------------------------ *)
(** * Chunk identifiers *)

Lemma lit_inj a b : lit a = lit b -> a = b.
Proof.
  unfold lit. intros H.
  assert (E : list_ascii_of_string a = list_ascii_of_string b).
  { revert H. generalize (list_ascii_of_string a) (list_ascii_of_string b).
    induction l as [|x l IH]; intros [|y l'] H; try discriminate;
      [reflexivity|].
    cbn [map] in H. inversion H as [[Hx Hl]]. f_equal; [|now apply IH].
    rewrite <- (ascii_N_embedding x), <- (ascii_N_embedding y). now rewrite Hx. }
  rewrite <- (string_of_list_ascii_of_string a),
          <- (string_of_list_ascii_of_string b).
  now rewrite E.
Qed.

Lemma to_int_proper z :
  Z.to_int z <> Decimal.Pos Decimal.Nil /\ Z.to_int z <> Decimal.Neg Decimal.Nil.
Proof.
  destruct z as [|p|p]; cbn; split; try discriminate; intros E; inversion E;
    now apply (DecimalPos.Unsigned.to_uint_nonnil p).
Qed.

Lemma str_of_int_inj a b : str_of_int a = str_of_int b -> a = b.
Proof.
  unfold str_of_int. intros H. apply lit_inj in H.
  apply (f_equal DecimalString.NilZero.int_of_string) in H.
  destruct (to_int_proper a) as [Ha1 Ha2]. destruct (to_int_proper b) as [Hb1 Hb2].
  rewrite !DecimalString.NilZero.isi in H by assumption.
  inversion H as [E]. apply (f_equal Z.of_int) in E.
  now rewrite !DecimalZ.of_to in E.
Qed.

Lemma uint_no_underscore d :
  Forall (fun c => c <> 95%N) (lit (DecimalString.NilEmpty.string_of_uint d)).
Proof.
  induction d; cbn; constructor; try discriminate; assumption.
Qed.

Lemma str_of_int_no_underscore i : Forall (fun c => c <> 95%N) (str_of_int i).
Proof.
  unfold str_of_int. destruct (Z.to_int i) as [d|d]; cbn.
  - destruct d; try apply uint_no_underscore.
    cbn. constructor; [discriminate|constructor].
  - constructor; [discriminate|].
    destruct d; try apply uint_no_underscore.
    cbn. constructor; [discriminate|constructor].
Qed.

Lemma split_at_last {A} (u : A) a : forall b x y,
  ~ In u x -> ~ In u y ->
  a ++ u :: x = b ++ u :: y -> a = b /\ x = y.
Proof.
  induction a as [|c a IH]; intros [|c' b] x y Hx Hy E; cbn in E.
  - inversion E. now split.
  - inversion E as [[Hc Hrest]]. exfalso. apply Hx. rewrite Hrest.
    apply in_or_app. right. now left.
  - inversion E as [[Hc Hrest]]. exfalso. apply Hy. rewrite <- Hrest.
    apply in_or_app. right. now left.
  - inversion E as [[Hc Hrest]]. destruct (IH b x y Hx Hy Hrest) as [-> ->].
    now split.
Qed.

(** The identifier of a chunk determines its document and its index. *)
Lemma chunk_id_inj (d d' : str) (i j : Z) :
  d ++ lit "_" ++ str_of_int i = d' ++ lit "_" ++ str_of_int j ->
  d = d' /\ i = j.
Proof.
  intros E. change (lit "_") with [95%N] in E. cbn [app] in E.
  assert (Hn : forall k, ~ In 95%N (str_of_int k)).
  { intros k Hin. pose proof (str_of_int_no_underscore k) as F.
    rewrite Forall_forall in F. now apply (F _ Hin). }
  destruct (split_at_last 95%N d d' _ _ (Hn i) (Hn j) E) as [Ed Ei].
  split; [exact Ed|now apply str_of_int_inj].
Qed.

Lemma chunk_ids_nodup document_id n :
  NoDup (VectorStore.chunk_ids document_id n).
Proof.
  unfold VectorStore.chunk_ids.
  apply Finite.Injective_map_NoDup; [|apply seq_NoDup].
  intros i j E. apply chunk_id_inj in E. lia.
Qed.

(** X13.  The ids [f"{document_id}_{i}"] that [add_document] gives to the chunks of
    a batch are as many as the chunks and pairwise distinct, and two
    documents with different identifiers never share a chunk id. *)
Theorem chunk_ids_distinct (document_id : str) (n : nat) :
  length (VectorStore.chunk_ids document_id n) = n
  /\ NoDup (VectorStore.chunk_ids document_id n)
  /\ (forall other m id,
         other <> document_id ->
         In id (VectorStore.chunk_ids document_id n) ->
         ~ In id (VectorStore.chunk_ids other m)).
Proof.
  unfold VectorStore.chunk_ids. split; [|split].
  - now rewrite length_map, length_seq.
  - apply Finite.Injective_map_NoDup; [|apply seq_NoDup].
    intros i j E. apply chunk_id_inj in E. lia.
  - intros other m id Hne Hin Hin'.
    apply in_map_iff in Hin. destruct Hin as (i & <- & _).
    apply in_map_iff in Hin'. destruct Hin' as (j & E & _).
    apply chunk_id_inj in E. destruct E as [E _]. now apply Hne.
Qed.

(* ------------------------------------------------------------------ *)
(** * A successful ingest *)

Lemma has_id_false id rows :
  (forall r, In r rows -> row_id r <> id) -> Chroma.has_id id rows = false.
Proof.
  intros H. unfold Chroma.has_id.
  destruct (existsb (fun r => eqb id (row_id r)) rows) eqn:E; [|reflexivity].
  apply existsb_exists in E. destruct E as (r & Hr & Er).
  apply eqb_eq in Er. exfalso. apply (H r Hr). now symmetry.
Qed.

Lemma insert_rows_fresh new : forall rows,
  NoDup (map row_id new) ->
  (forall r r', In r new -> In r' rows -> row_id r' <> row_id r) ->
  Chroma.insert_rows new rows = rows ++ new.
Proof.
  induction new as [|r new IH]; intros rows Hnd Hfresh; cbn [Chroma.insert_rows].
  - now rewrite app_nil_r.
  - cbn [map] in Hnd. inversion Hnd as [|? ? Hr Hnew]; subst.
    rewrite has_id_false.
    2:{ intros r' Hr'. apply (Hfresh r r'); [now left|exact Hr']. }
    rewrite IH; [now rewrite <- app_assoc|exact Hnew|].
    intros x x' Hx Hx'. apply in_app_or in Hx'. destruct Hx' as [Hx'|[<-|[]]].
    + apply Hfresh; [now right|exact Hx'].
    + intros E. apply Hr. rewrite E. now apply in_map.
Qed.

Lemma rows_of_maps embs : forall docs metas ids,
  length embs = length docs -> length metas = length docs ->
  length ids = length docs ->
  map row_id (Chroma.rows_of embs docs metas ids) = ids
  /\ map row_document (Chroma.rows_of embs docs metas ids) = docs
  /\ map row_metadata (Chroma.rows_of embs docs metas ids) = map Some metas.
Proof.
  induction embs as [|e embs IH]; intros [|d docs] [|m metas] [|i ids] H1 H2 H3;
    try discriminate; [now repeat split|].
  cbn [Chroma.rows_of map]. inversion H1. inversion H2. inversion H3.
  destruct (IH docs metas ids) as (E1 & E2 & E3); try assumption.
  now rewrite E1, E2, E3.
Qed.

(** X14.  A successful ingest of document [A] into a store none of whose rows has
    an id of the form [A_i] appends one row per chunk, in chunk order: row
    [i] holds chunk [i] under the id [A_i], with the metadata of the batch.
    There is at least one such row. *)
Theorem ingest_adds_one_row_per_chunk
        (w : world) (config : RAGConfig) (A pdf_path : str)
        (metadata : option raw_meta) (s : state) :
  fst (RAGSystem.add_pdf_document w config A pdf_path metadata s) = Ok tt ->
  (forall r (i : nat),
      In r (collection s) -> row_id r <> A ++ lit "_" ++ str_of_int (Z.of_nat i)) ->
  exists text new,
    fst (extract_text_from_pdf w (processor config) pdf_path s) = Ok text
    /\ collection
         (snd (RAGSystem.add_pdf_document w config A pdf_path metadata s))
       = collection s ++ new
    /\ new <> []
    /\ map row_document new = split_text_into_chunks (processor config) text
    /\ map row_id new = VectorStore.chunk_ids A (length new)
    /\ map row_metadata new
       = repeat (Some (coerce_meta (VectorStore.base_raw_of A pdf_path metadata)))
                (length new).
Proof.
  intros Hok Hfresh. unfold RAGSystem.add_pdf_document in *.
  destruct (path_exists w pdf_path); cbn [negb] in *; [|discriminate].
  pose proof (add_document_outcome w config A pdf_path metadata s) as H.
  inversion H as [e s' F E1 E2
                 |s3 text embeddings r s' F Ex chunks b0 Hne Henc Hlen T Hres E1 E2].
  { rewrite Hok in E1. discriminate. }
  destruct Hres as [[_ Ecoll]|[(e & Hr & _) _]];
    [|rewrite Hok in Hr; discriminate].
  set (new := Chroma.rows_of_batch b0).
  destruct (rows_of_maps (b_embeddings b0) (b_documents b0) (b_metadatas b0)
              (b_ids b0)) as (Eid & Edoc & Emeta).
  { subst b0. cbn. exact Hlen. }
  { subst b0. cbn. now rewrite repeat_length. }
  { subst b0. cbn. unfold VectorStore.chunk_ids.
    now rewrite length_map, length_seq. }
  change (Chroma.rows_of (b_embeddings b0) (b_documents b0) (b_metadatas b0)
                         (b_ids b0)) with new in Eid, Edoc, Emeta.
  assert (Enew : length new = length chunks).
  { rewrite <- (length_map row_document), Edoc. subst b0. reflexivity. }
  exists text, new. split; [exact Ex|]. split.
  - rewrite Ecoll. fold new. apply insert_rows_fresh.
    + rewrite Eid. subst b0. cbn. apply chunk_ids_nodup.
    + intros x x' Hx Hx'. apply (in_map row_id) in Hx. rewrite Eid in Hx.
      subst b0. cbn in Hx. unfold VectorStore.chunk_ids in Hx.
      apply in_map_iff in Hx. destruct Hx as (i & <- & _).
      now apply Hfresh.
  - split.
    { intros E. rewrite E in Enew. destruct chunks; [now apply Hne|discriminate]. }
    split; [rewrite Edoc; subst b0; reflexivity|].
    split.
    + rewrite Eid, Enew. subst b0. reflexivity.
    + rewrite Emeta, Enew. subst b0. cbn. now rewrite map_repeat.
Qed.

Lemma ingest_adds_one_row_per_chunk_witness :
  exists text new,
    fst (extract_text_from_pdf demo_world (processor demo_config) demo_path
           empty_state) = Ok text
    /\ collection
         (snd (RAGSystem.add_pdf_document demo_world demo_config (lit "A")
                 demo_path None empty_state))
       = collection empty_state ++ new
    /\ new <> []
    /\ map row_document new
       = split_text_into_chunks (processor demo_config) text
    /\ map row_id new = VectorStore.chunk_ids (lit "A") (length new)
    /\ map row_metadata new
       = repeat (Some (coerce_meta
                         (VectorStore.base_raw_of (lit "A") demo_path None)))
                (length new).
Proof.
  apply (ingest_adds_one_row_per_chunk demo_world demo_config (lit "A")
           demo_path None empty_state).
  - vm_compute. reflexivity.
  - intros r i [].
Defined.

(* ------------------------------------------------------------------ *)
(** * Deleting a document *)

Lemma nodup_same_id (rows : list row) r r' :
  NoDup (map row_id rows) -> In r rows -> In r' rows ->
  row_id r = row_id r' -> r = r'.
Proof.
  induction rows as [|x rows IH]; intros Hnd Hr Hr' E; [destruct Hr|].
  cbn [map] in Hnd. inversion Hnd as [|? ? Hx Hrows]; subst.
  destruct Hr as [<-|Hr], Hr' as [<-|Hr']; try reflexivity.
  - exfalso. apply Hx. rewrite E. now apply in_map.
  - exfalso. apply Hx. rewrite <- E. now apply in_map.
  - now apply IH.
Qed.

(** X15.  In a store whose row ids are pairwise distinct, a successful
    [delete_document] removes the rows whose metadata has
    [document_id] equal to the argument and exactly those: every other row is
    kept, in place. *)
Theorem delete_removes_exactly_the_document
        (w : world) (document_id : str) (s : state) :
  NoDup (map row_id (collection s)) ->
  fst (VectorStore.delete_document w document_id s) = Ok tt ->
  collection (snd (VectorStore.delete_document w document_id s))
  = filter (fun r => negb (of_document document_id r)) (collection s).
Proof.
  intros Hnd. unfold VectorStore.delete_document, try_except, bind.
  rewrite chroma_get_run. cbv zeta.
  destruct (store_fault w (trace s ++ [CollectionGet _])); [discriminate|].
  cbn [g_ids].
  change (Chroma.matches (Some (lit "document_id", document_id)))
    with (of_document document_id).
  destruct (filter (of_document document_id) (collection s)) as [|a found] eqn:Ef.
  - cbn [map truthy ret snd fst collection]. intros _. symmetry.
    apply filter_every. intros r Hr.
    apply negb_true_iff. destruct (of_document document_id r) eqn:E;
      [|reflexivity].
    assert (Hin : In r (filter (of_document document_id) (collection s)))
      by (apply filter_In; now split).
    rewrite Ef in Hin. destruct Hin.
  - cbn [map truthy]. rewrite chroma_delete_run. cbv zeta.
    cbn [collection trace].
    destruct (store_fault w _); [discriminate|]. intros _. cbn [snd collection].
    change (row_id a :: map row_id found) with (map row_id (a :: found)).
    rewrite <- Ef. apply filter_ext_in. intros r Hr. f_equal.
    destruct (of_document document_id r) eqn:E.
    + apply existsb_exists. exists (row_id r). split; [|apply eqb_refl].
      apply in_map. apply filter_In. now split.
    + destruct (existsb (eqb (row_id r))
                  (map row_id (filter (of_document document_id) (collection s))))
        eqn:Ex; [|reflexivity].
      apply existsb_exists in Ex. destruct Ex as (i & Hi & Ei).
      apply eqb_eq in Ei. apply in_map_iff in Hi. destruct Hi as (r' & <- & Hr').
      apply filter_In in Hr'. destruct Hr' as [Hr' Hm].
      assert (r = r') by (now apply (nodup_same_id (collection s))).
      subst r'. congruence.
Qed.

Lemma delete_removes_exactly_the_document_witness :
  map row_id
      (collection (snd (VectorStore.delete_document demo_world (lit "A")
                          three_row_state)))
  = [lit "B_0"; lit "C_0"].
Proof.
  rewrite (delete_removes_exactly_the_document demo_world (lit "A")
             three_row_state).
  - reflexivity.
  - repeat constructor; cbn; intuition discriminate.
  - reflexivity.
Defined.

(** X16.  Unlike the reads, [delete_document] does not swallow a failure of the
    store: the exception of [collection.get], or of [collection.delete], is
    raised to the caller. *)
Theorem delete_propagates_store_errors
        (w : world) (document_id : str) (s : state) (e : exn) :
  (store_fault w
     (trace s ++ [CollectionGet (Some (lit "document_id", document_id))])
   = Some e ->
   fst (VectorStore.delete_document w document_id s) = Raise e)
  /\ (store_fault w
        (trace s ++ [CollectionGet (Some (lit "document_id", document_id))])
      = None ->
      filter (of_document document_id) (collection s) <> [] ->
      store_fault w
        (trace s
         ++ [CollectionGet (Some (lit "document_id", document_id));
             CollectionDelete
               (map row_id (filter (of_document document_id) (collection s)))])
      = Some e ->
      fst (VectorStore.delete_document w document_id s) = Raise e).
Proof.
  unfold VectorStore.delete_document, try_except, bind.
  rewrite chroma_get_run. cbv zeta. split.
  - intros Hf. now rewrite Hf.
  - intros Hget Hfound Hdel. rewrite Hget. cbn [g_ids].
    change (Chroma.matches (Some (lit "document_id", document_id)))
      with (of_document document_id).
    destruct (filter (of_document document_id) (collection s)) as [|a found];
      [contradiction|].
    cbn [map truthy]. rewrite chroma_delete_run. cbv zeta. cbn [trace].
    rewrite <- app_assoc. cbn [app]. cbn [map] in Hdel. now rewrite Hdel.
Qed.

Lemma delete_propagates_store_errors_witness :
  fst (VectorStore.delete_document faulty_world (lit "A") three_row_state)
  = Raise (LibraryError (lit "disk I/O error")).
Proof.
  apply (proj1 (delete_propagates_store_errors faulty_world (lit "A")
                  three_row_state (LibraryError (lit "disk I/O error")))).
  reflexivity.
Defined.

(* ------------------------------------------------------------------ *)
(** * The listing of documents *)

Lemma sum_chunks_set k v (documents : dict RAGSystem.summary) :
  sum_chunks (map snd (dict_set k v documents))
  = sum_chunks (map snd documents) + RAGSystem.s_chunks v
    - match dict_get k documents with
      | Some d => RAGSystem.s_chunks d
      | None => 0
      end.
Proof.
  induction documents as [|[k' d'] documents IH]; [cbn; lia|].
  cbn [dict_set dict_get]. destruct (eqb k k').
  - cbn. lia.
  - cbn [map snd]. unfold sum_chunks in *. cbn [fold_right]. rewrite IH. lia.
Qed.

Lemma sum_chunks_group documents m :
  sum_chunks (map snd (group documents m))
  = sum_chunks (map snd documents) + 1.
Proof.
  unfold group.
  destruct (dict_get (doc_key m) documents) as [d|] eqn:E;
    rewrite sum_chunks_set, E; cbn; lia.
Qed.

Lemma sum_chunks_fold metas : forall documents,
  sum_chunks (map snd (fold_left group metas documents))
  = sum_chunks (map snd documents) + len metas.
Proof.
  unfold len. induction metas as [|m metas IH]; intros documents.
  - cbn [fold_left length]. lia.
  - cbn [fold_left]. rewrite IH, sum_chunks_group. cbn [length]. lia.
Qed.

Lemma well_keyed_ids keys documents :
  well_keyed keys documents ->
  map RAGSystem.s_document_id (map snd documents) = map fst documents.
Proof.
  intros [Hnd Hk].
  assert (H : forall kd, In kd documents ->
                         RAGSystem.s_document_id (snd kd) = fst kd).
  { intros [k d] Hin. cbn. apply (Hk k d). now apply dict_in_get. }
  clear Hnd Hk. induction documents as [|kd documents IH]; [reflexivity|].
  cbn [map]. rewrite H by now left. f_equal. apply IH.
  intros kd' Hin. apply H. now right.
Qed.

(** X17.  When the store answers and every row has metadata, [list_documents]
    returns one record for each distinct document key of the rows (the
    [document_id] of the metadata, ["unknown"] when it has none): the
    records have pairwise distinct [document_id]s, each counts the rows of
    its key, and the counts add up to the number of rows. *)
Theorem list_documents_groups_rows
        (w : world) (s : state) (metas : list meta) :
  store_fault w (trace s ++ [CollectionGet None]) = None ->
  map row_metadata (collection s) = map Some metas ->
  exists l,
    fst (RAGSystem.list_documents w s) = Ok l
    /\ NoDup (map RAGSystem.s_document_id l)
    /\ (forall d, In d l ->
          RAGSystem.s_chunks d = count_key (RAGSystem.s_document_id d) metas
          /\ 1 <= RAGSystem.s_chunks d)
    /\ (forall m, In m metas ->
          exists d, In d l /\ RAGSystem.s_document_id d = doc_key m)
    /\ sum_chunks l = len (collection s).
Proof.
  intros Hok Hmetas.
  destruct (list_documents_summaries w s metas Hok Hmetas)
    as (l & El & Hall & Hsome).
  exists l. split; [exact El|].
  assert (Erun : fst (RAGSystem.list_documents w s)
                 = Ok (map snd (fold_left group metas []))).
  { unfold RAGSystem.list_documents, RAGSystem.list_body, try_except, bind.
    rewrite chroma_get_run. cbv zeta. rewrite Hok.
    cbn [g_metadatas Chroma.matches]. rewrite filter_true, Hmetas.
    now rewrite for_each_group. }
  rewrite El in Erun. inversion Erun as [El']. clear Erun.
  assert (Hwk : well_keyed (map doc_key metas) (fold_left group metas [])).
  { apply fold_group_well_keyed.
    - intros m Hm. now apply in_map.
    - split; [constructor|]. intros k d Hd. discriminate Hd. }
  split; [|split; [|split]].
  - rewrite (well_keyed_ids _ _ Hwk). apply Hwk.
  - intros d Hd. rewrite <- El' in Hd. destruct (Hall d Hd) as [Hkey Hc].
    split; [exact Hc|]. rewrite Hc. unfold count_key, len.
    apply in_map_iff in Hkey. destruct Hkey as (m & Ek & Hm).
    assert (In m (filter (fun m' => eqb (doc_key m') (RAGSystem.s_document_id d))
                         metas)).
    { apply filter_In. split; [exact Hm|]. rewrite Ek. apply eqb_refl. }
    destruct (filter _ metas); [contradiction|]. cbn [length]. lia.
  - intros m Hm. rewrite <- El'. now apply Hsome.
  - rewrite sum_chunks_fold. cbn. unfold len.
    rewrite <- (length_map row_metadata), Hmetas, length_map. lia.
Qed.

Lemma list_documents_groups_rows_witness :
  exists l,
    fst (RAGSystem.list_documents demo_world three_row_state) = Ok l
    /\ NoDup (map RAGSystem.s_document_id l)
    /\ sum_chunks l = 3.
Proof.
  destruct (list_documents_groups_rows demo_world three_row_state
              [[(lit "source", demo_path); (lit "document_id", lit "A")];
               [(lit "source", lit "b.pdf"); (lit "document_id", lit "B")];
               [(lit "source", lit "report")]]
              eq_refl eq_refl) as (l & El & Hnd & _ & _ & Hsum).
  exists l. split; [exact El|]. split; [exact Hnd|exact Hsum].
Defined.

(** X18.  One row without metadata empties the listing: [list_documents] then
    returns the empty list, whatever the other rows. *)
Theorem list_documents_needs_metadata (w : world) (s : state) (r : row) :
  In r (collection s) -> row_metadata r = None ->
  fst (RAGSystem.list_documents w s) = Ok [].
Proof.
  intros Hr Hnone.
  unfold RAGSystem.list_documents, RAGSystem.list_body, try_except, bind.
  rewrite chroma_get_run. cbv zeta.
  destruct (store_fault w (trace s ++ [CollectionGet None])); [reflexivity|].
  cbn [g_metadatas Chroma.matches]. rewrite filter_true.
  assert (Hin : In None (map row_metadata (collection s))).
  { rewrite <- Hnone. now apply in_map. }
  destruct (for_each_group_none _ []
              {| collection := collection s; model_loaded := model_loaded s;
                 trace := trace s ++ [CollectionGet None] |} Hin) as [e ->].
  reflexivity.
Qed.

Lemma list_documents_needs_metadata_witness :
  fst (RAGSystem.list_documents demo_world
         {| collection :=
              collection three_row_state
              ++ [{| row_id := lit "D_0"; row_embedding := [];
                     row_document := lit "no metadata"; row_metadata := None |}];
            model_loaded := true;
            trace := [] |}) = Ok [].
Proof.
  apply (list_documents_needs_metadata demo_world _
           {| row_id := lit "D_0"; row_embedding := [];
              row_document := lit "no metadata"; row_metadata := None |}).
  - cbn. right. right. right. now left.
  - reflexivity.
Defined.

(* ------------------------------------------------------------------ *)
(** * The coercion of metadata *)

Lemma coerce_meta_snoc raw kv :
  coerce_meta (raw ++ [kv])
  = dict_set (py_str (fst kv)) (py_str (snd kv)) (coerce_meta raw).
Proof. unfold coerce_meta. now rewrite fold_left_app. Qed.

(** X19.  In the stored mapping the keys are pairwise distinct; of two entries of
    the caller whose keys have the same string (as [1] and ["1"]) the later
    one gives the value; and every stored entry is the string of a key with
    the string of its value. *)
Theorem coerce_meta_last_wins (raw : raw_meta) :
  NoDup (map fst (coerce_meta raw))
  /\ (forall k0 v0 k,
         dict_get k (coerce_meta (raw ++ [(k0, v0)]))
         = if eqb k (py_str k0) then Some (py_str v0)
           else dict_get k (coerce_meta raw))
  /\ (forall k v,
         dict_get k (coerce_meta raw) = Some v ->
         exists kv, In kv raw /\ py_str (fst kv) = k /\ py_str (snd kv) = v).
Proof.
  split; [|split].
  - induction raw as [|kv raw IH] using rev_ind; [constructor|].
    rewrite coerce_meta_snoc. now apply dict_set_nodup.
  - intros k0 v0 k. rewrite coerce_meta_snoc. cbn [fst snd].
    destruct (eqb k (py_str k0)) eqn:E.
    + apply eqb_eq in E. subst k. apply dict_get_set_same.
    + apply eqb_neq in E. now apply dict_get_set_other.
  - induction raw as [|kv raw IH] using rev_ind; intros k v H;
      [discriminate H|].
    rewrite coerce_meta_snoc in H.
    destruct (eqb k (py_str (fst kv))) eqn:E.
    + apply eqb_eq in E. subst k. rewrite dict_get_set_same in H.
      inversion H; subst v. exists kv. split; [|now split].
      apply in_or_app. right. now left.
    + apply eqb_neq in E. rewrite dict_get_set_other in H by exact E.
      destruct (IH k v H) as (kv' & Hin & Hk & Hv). exists kv'.
      split; [|now split]. apply in_or_app. now left.
Qed.

Lemma coerce_meta_last_wins_witness :
  coerce_meta [(PInt 1, PStr (lit "first")); (PStr (lit "source"), PNone);
               (PStr (lit "1"), PBool true)]
  = [(lit "1", lit "True"); (lit "source", lit "None")]
  /\ dict_get (lit "1")
       (coerce_meta ([(PInt 1, PStr (lit "first")); (PStr (lit "source"), PNone)]
                     ++ [(PStr (lit "1"), PBool true)]))
     = Some (lit "True").
Proof.
  split; [reflexivity|].
  rewrite (proj1 (proj2 (coerce_meta_last_wins
                           [(PInt 1, PStr (lit "first"));
                            (PStr (lit "source"), PNone)]))).
  reflexivity.
Defined.

(* ------------------------------------------------------------------ *)
(** * The length floor inside the loop *)



(* ------------------------------------------------------------------ *)
(** * A successful search *)

Lemma zip_hits_firstn docs : forall dists metas,
  let n := Nat.min (length docs) (Nat.min (length dists) (length metas)) in
  length (VectorStore.zip_hits docs dists metas) = n
  /\ map (fun h => fst (fst h)) (VectorStore.zip_hits docs dists metas)
     = firstn n docs
  /\ map hit_distance (VectorStore.zip_hits docs dists metas) = firstn n dists
  /\ map snd (VectorStore.zip_hits docs dists metas)
     = map (fun m => match m with Some m' => m' | None => [] end)
           (firstn n metas).
Proof.
  induction docs as [|d docs IH]; intros dists metas; [now repeat split|].
  destruct dists as [|x dists]; [now repeat split|].
  destruct metas as [|m metas].
  { cbn. now repeat split. }
  destruct (IH dists metas) as (H1 & H2 & H3 & H4).
  cbn [VectorStore.zip_hits length Nat.min map firstn].
  rewrite H1, H2, H3, H4. now repeat split.
Qed.

(** X20.  When the model is loaded, the encoding succeeds with an array and the
    store answers, [search_similar_documents] encodes the one query, asks the
    store for [n_results or search_results] neighbours of it, and returns the
    first documents, distances and metadatas of the answer zipped up to the
    shortest of the three, a missing metadata replaced by the empty
    mapping. *)
Theorem search_returns_store_answer
        (w : world) (config : RAGConfig) (query : str) (n_results : option Z)
        (s : state) (q : list vector)
        (docs : list str) (dists : list float) (metas : list (option meta))
        (rest1 : list (list str)) (rest2 : list (list float))
        (rest3 : list (list (option meta))) :
  let n := VectorStore.n_results_or config n_results in
  let answer := query_answer w (collection s) q n in
  model_loaded s = true ->
  encode w [query] = Ok (NdArray q) ->
  store_fault w (trace s ++ [Encode [query]; CollectionQuery q n]) = None ->
  q_documents answer = Some (docs :: rest1) ->
  q_distances answer = Some (dists :: rest2) ->
  q_metadatas answer = Some (metas :: rest3) ->
  exists hits,
    VectorStore.search_similar_documents w config query n_results s
    = (Ok hits,
       {| collection := collection s;
          model_loaded := true;
          trace := trace s ++ [Encode [query]; CollectionQuery q n] |})
    /\ length hits
       = Nat.min (length docs) (Nat.min (length dists) (length metas))
    /\ map (fun h => fst (fst h)) hits = firstn (length hits) docs
    /\ map hit_distance hits = firstn (length hits) dists
    /\ map snd hits
       = map (fun m => match m with Some m' => m' | None => [] end)
             (firstn (length hits) metas).
Proof.
  intros n answer Hloaded Henc Hok Hd Hx Hm.
  exists (VectorStore.zip_hits docs dists metas).
  destruct (zip_hits_firstn docs dists metas) as (H1 & H2 & H3 & H4).
  split; [|rewrite H1; now repeat split].
  unfold VectorStore.search_similar_documents, VectorStore.search_body,
    try_except, bind, VectorStore._ensure_model, VectorStore.model_encode,
    Chroma.query, Chroma.call, bind, emit, lift, get_rows, ret.
  rewrite Hloaded. cbn [collection model_loaded trace]. rewrite Henc.
  cbn [VectorStore.tolist ret collection model_loaded trace].
  fold n. rewrite <- app_assoc. cbn [app]. rewrite Hok.
  cbn [collection]. fold answer. unfold VectorStore.hits_of.
  now rewrite Hd, Hx, Hm, Hloaded.
Qed.

Lemma search_returns_store_answer_witness :
  exists hits,
    VectorStore.search_similar_documents demo_world demo_config (lit "fox")
                                         (Some 2) three_row_state
    = (Ok hits,
       {| collection := collection three_row_state;
          model_loaded := true;
          trace := trace three_row_state
                   ++ [Encode [lit "fox"]; CollectionQuery [[0.5%float]] 2] |})
    /\ length hits = 2%nat.
Proof.
  destruct (search_returns_store_answer demo_world demo_config (lit "fox")
              (Some 2) three_row_state [[0.5%float]]
              (firstn 2 (map row_document (collection three_row_state)))
              (firstn 2 (map (fun _ => 0.25%float) (collection three_row_state)))
              (firstn 2 (map row_metadata (collection three_row_state)))
              [] [] []
              eq_refl eq_refl eq_refl eq_refl eq_refl eq_refl)
    as (hits & E & Hlen & _).
  exists hits. split; [exact E|exact Hlen].
Defined.
